(** * ACL curve compression codec: a shallow embedding

    The development follows
    [ACLPlugin/Source/ACLPlugin/Private/AnimCurveCompressionCodec_ACL.cpp].
    C++ [float] is IEEE-754 binary32; it is modelled with the Standard
    Library's executable specification of floating-point arithmetic
    ([SpecFloat]) at precision 24 and maximal exponent 128, so that every
    rounding the code performs is visible in the model.  The ACL library and
    the engine are external: what the codec calls is taken as a parameter of
    the development, and the engine containers it touches are modelled from
    their contracts. *)

From Stdlib Require Import ZArith Bool Lia String.
From Stdlib Require Strings.Byte.
From Stdlib Require Import Floats.SpecFloat.
From stdpp Require Import base option list gmap.
From Stdlib Require Import Reals Lra.

Local Open Scope Z_scope.

(** ** Single precision floating point *)

Module F32.

Definition prec : Z := 24.
Definition emax : Z := 128.

Definition float : Type := spec_float.

(** Conversion of a C++ integer to [float] (round to nearest even). *)
Definition of_int (n : Z) : float := binary_normalize prec emax n 0 false.

Definition div (x y : float) : float := SFdiv prec emax x y.
Definition mul (x y : float) : float := SFmul prec emax x y.

(** The comparisons of C++; every comparison with a NaN is false. *)
Definition lt (x y : float) : bool := SFltb x y.
Definition le (x y : float) : bool := SFleb x y.
Definition gt (x y : float) : bool := SFltb y x.
Definition ge (x y : float) : bool := SFleb y x.

(** Bit-for-bit equality of two floats (not the C++ [==]). *)
Definition same (x y : float) : bool :=
  match x, y with
  | S754_zero s, S754_zero s' => Bool.eqb s s'
  | S754_infinity s, S754_infinity s' => Bool.eqb s s'
  | S754_nan, S754_nan => true
  | S754_finite s m e, S754_finite s' m' e' =>
      Bool.eqb s s' && Pos.eqb m m' && Z.eqb e e'
  | _, _ => false
  end.

Definition is_zero (x : float) : bool :=
  match x with S754_zero _ => true | _ => false end.

(** A value that a binary32 variable can hold. *)
Definition valid (x : float) : bool := valid_binary prec emax x.

(** The literals of the source, correctly rounded. *)
Definition zero : float := S754_zero false.                    (* 0.0f *)
Definition one : float := Eval vm_compute in of_int 1.         (* 1.0f *)
Definition thirty : float := Eval vm_compute in of_int 30.     (* 30.0f *)
Definition lit_0_0001 : float :=                               (* 0.0001f *)
  Eval vm_compute in div (of_int 1) (of_int 10000).
Definition lit_0_001 : float :=                                (* 0.001f *)
  Eval vm_compute in div (of_int 1) (of_int 1000).
Definition lit_0_01 : float :=                                 (* 0.01f *)
  Eval vm_compute in div (of_int 1) (of_int 100).

End F32.

Abbreviation float := F32.float.

Global Instance float_inhabited : Inhabited float := populate F32.zero.

(** ** 32-bit integers *)

Definition int32_wrap (z : Z) : Z := (z + 2 ^ 31) mod 2 ^ 32 - 2 ^ 31.
Definition int32_sub (a b : Z) : Z := int32_wrap (a - b).
Definition int32_range (z : Z) : Prop := - 2 ^ 31 <= z < 2 ^ 31.
Definition uint32_of_int32 (z : Z) : Z := z mod 2 ^ 32.

(** ** Engine types the codec touches *)

Definition UID_Type : Type := N.

Record FSmartName : Type := {
  DisplayName : string;
  UID : UID_Type
}.

(** Modelled from the spec: the engine's [FRichCurve] is not part of the
    sources; a curve is "evaluable at any time via the source curve's own
    interpolation", that is, it carries its evaluation function. *)
Record FRichCurve : Type := { Eval : float -> float }.

Record FFloatCurve : Type := {
  Name : FSmartName;
  FloatCurve : FRichCurve
}.

Global Instance FFloatCurve_inhabited : Inhabited FFloatCurve :=
  populate {| Name := {| DisplayName := EmptyString; UID := 0%N |};
              FloatCurve := {| Eval := fun _ => F32.zero |} |}.

(** [AnimSeq.RawCurveData.FloatCurves], [NumFrames], [SequenceLength]. *)
Record FCompressibleAnimData : Type := {
  FloatCurves : list FFloatCurve;
  NumFrames : Z;
  SequenceLength : float
}.

(** [FVector]: the components X, Y and Z. *)
Record FVector : Type := { X : float; Y : float; Z_ : float }.
Record FMorphTargetDelta : Type := { PositionDelta : FVector }.

(** A morph target gives, per level of detail, its vertex deltas. *)
Record UMorphTarget : Type := {
  GetMorphTargetDelta : Z -> list FMorphTargetDelta
}.

Record USkeletalMesh : Type := {
  FindMorphTarget : string -> option UMorphTarget
}.

(** Modelled from the spec: the engine's [FMath::Max] and [FMath::Clamp] are
    not part of the sources; "maximum" and "clamp" are taken as the engine's
    templates compute them, [(A >= B) ? A : B] and
    [X < Min ? Min : X < Max ? X : Max]. *)
Definition FMath_Max (A B : float) : float := if F32.ge A B then A else B.

Definition FMath_Clamp (X Min Max : float) : float :=
  if F32.lt X Min then Min else if F32.lt X Max then X else Max.

(** ** The codec object *)

Record UAnimCurveCompressionCodec_ACL : Type := {
  CurvePrecision : float;
  MorphTargetPositionPrecision : float;
  MorphTargetSource : option USkeletalMesh
}.

(** The constructor's defaults (no morph target source). *)
Definition UAnimCurveCompressionCodec_ACL_new : UAnimCurveCompressionCodec_ACL :=
  {| CurvePrecision := F32.lit_0_001;
     MorphTargetPositionPrecision := F32.lit_0_01;
     MorphTargetSource := None |}.

(** ** ACL's tracks *)

Record track_desc_scalarf : Type := {
  output_index : Z;
  precision : float;
  constant_threshold : float
}.

Record track_float1f : Type := {
  desc : track_desc_scalarf;
  samples : list float;
  sample_rate : float
}.

Global Instance track_float1f_inhabited : Inhabited track_float1f :=
  populate {| desc := {| output_index := 0; precision := F32.zero;
                         constant_threshold := F32.zero |};
              samples := []; sample_rate := F32.zero |}.

(** [track_float1f::make_reserve(desc, allocator, num_samples, sample_rate)]:
    [num_samples] is a [uint32_t]; the reserved samples are not initialised,
    the model fills them with [0.0f]. *)
Definition make_reserve (Desc : track_desc_scalarf) (num_samples : Z)
    (SampleRate : float) : track_float1f :=
  {| desc := Desc;
     samples := replicate (Z.to_nat num_samples) F32.zero;
     sample_rate := SampleRate |}.

(** [Track[SampleIndex] = SampleValue]. *)
Definition track_set (Track : track_float1f) (SampleIndex : nat)
    (SampleValue : float) : track_float1f :=
  {| desc := desc Track;
     samples := <[SampleIndex := SampleValue]> (samples Track);
     sample_rate := sample_rate Track |}.

(** [for (int32 i = first; i < first + count; ++i) body], as a fold. *)
Fixpoint for_range {S : Type} (first count : nat) (body : nat -> S -> S)
    (s : S) : S :=
  match count with
  | O => s
  | Datatypes.S count' => for_range (Datatypes.S first) count' body (body first s)
  end.

(** ** Compression (editor only) *)

Section Compression.

(** [FVector::Size()], the engine's Euclidean length. *)
Variable Size : FVector -> float.

(** For each curve, its largest position delta if the curve is for a morph
    target, [0.0] otherwise. *)
Definition GetMorphTargetMaxPositionDeltas (AnimSeq : FCompressibleAnimData)
    (MorphTargetSource : option USkeletalMesh) : list float :=
  let NumCurves := length (FloatCurves AnimSeq) in
  let MorphTargetMaxPositionDeltas := replicate NumCurves F32.zero in
  match MorphTargetSource with
  | None => MorphTargetMaxPositionDeltas
  | Some Mesh =>
      for_range 0 NumCurves (fun CurveIndex Deltas =>
        let Curve := FloatCurves AnimSeq !!! CurveIndex in
        let MaxDeltaPosition :=
          match FindMorphTarget Mesh (DisplayName (Name Curve)) with
          | Some Target =>
              let LODIndex := 0 in
              fold_left
                (fun MaxDeltaPosition Delta =>
                   FMath_Max MaxDeltaPosition (Size (PositionDelta Delta)))
                (GetMorphTargetDelta Target LODIndex) F32.zero
          | None => F32.zero
          end in
        <[CurveIndex := MaxDeltaPosition]> Deltas)
        MorphTargetMaxPositionDeltas
  end.

(** Lines 120-122 of [Compress]. *)
Definition bIsStaticPose (NumSamples : Z) (SequenceLength : float) : bool :=
  (NumSamples <=? 1) || F32.lt SequenceLength F32.lit_0_0001.

Definition SampleRate (NumSamples : Z) (SequenceLength : float) : float :=
  if bIsStaticPose NumSamples SequenceLength then F32.thirty
  else F32.div (F32.of_int (int32_sub NumSamples 1)) SequenceLength.

Definition InvSampleRate (NumSamples : Z) (SequenceLength : float) : float :=
  F32.div F32.one (SampleRate NumSamples SequenceLength).

(** Line 159 of [Compress]. *)
Definition Precision (this : UAnimCurveCompressionCodec_ACL)
    (MaxPositionDelta : float) : float :=
  if F32.gt MaxPositionDelta F32.zero
  then F32.div (MorphTargetPositionPrecision this) MaxPositionDelta
  else CurvePrecision this.

(** Line 169 of [Compress]. *)
Definition SampleTime (NumSamples : Z) (SequenceLength : float)
    (SampleIndex : nat) : float :=
  FMath_Clamp
    (F32.mul (F32.of_int (Z.of_nat SampleIndex))
             (InvSampleRate NumSamples SequenceLength))
    F32.zero SequenceLength.

(** Lines 161-173 of [Compress]: the track of one curve. *)
Definition Compress_track (this : UAnimCurveCompressionCodec_ACL)
    (AnimSeq : FCompressibleAnimData) (MaxPositionDelta : float)
    (CurveIndex : nat) (Curve : FFloatCurve) : track_float1f :=
  let NumSamples := NumFrames AnimSeq in
  let Desc :=
    {| output_index := Z.of_nat CurveIndex;
       precision := Precision this MaxPositionDelta;
       constant_threshold := Precision this MaxPositionDelta |} in
  let Track :=
    make_reserve Desc (uint32_of_int32 NumSamples)
      (SampleRate NumSamples (SequenceLength AnimSeq)) in
  for_range 0 (Z.to_nat NumSamples) (fun SampleIndex Track =>
    let SampleTime :=
      SampleTime NumSamples (SequenceLength AnimSeq) SampleIndex in
    let SampleValue := Eval (FloatCurve Curve) SampleTime in
    track_set Track SampleIndex SampleValue) Track.

(** Lines 114-176 of [Compress]: the track array handed to ACL. *)
Definition Compress_tracks (this : UAnimCurveCompressionCodec_ACL)
    (AnimSeq : FCompressibleAnimData) : list track_float1f :=
  let MorphTargetMaxPositionDeltas :=
    GetMorphTargetMaxPositionDeltas AnimSeq (MorphTargetSource this) in
  let NumCurves := length (FloatCurves AnimSeq) in
  let Tracks := replicate NumCurves inhabitant in
  for_range 0 NumCurves (fun CurveIndex Tracks =>
    let Curve := FloatCurves AnimSeq !!! CurveIndex in
    let MaxPositionDelta := MorphTargetMaxPositionDeltas !!! CurveIndex in
    <[CurveIndex := Compress_track this AnimSeq MaxPositionDelta CurveIndex Curve]>
      Tracks) Tracks.

End Compression.

(** ** The ACL library, as the codec sees it *)

(** A compressed blob: [TArray<uint8>] reinterpreted as [compressed_tracks]. *)
Definition compressed_tracks : Type := list Byte.byte.

(** [acl::ErrorResult]: the error message, if there is one. *)
Definition ErrorResult : Type := option string.

Definition ErrorResult_any (e : ErrorResult) : bool :=
  match e with Some _ => true | None => false end.

Definition ErrorResult_empty (e : ErrorResult) : bool :=
  negb (ErrorResult_any e).

Inductive SampleRoundingPolicy : Type :=
| SampleRoundingPolicy_None
| SampleRoundingPolicy_Floor
| SampleRoundingPolicy_Ceil
| SampleRoundingPolicy_Nearest.

(** What the library computes is outside the sources: the development holds
    for every implementation of these entry points.
    - [compress_track_list]: the error result and the output pointer;
    - [is_valid]: [compressed_tracks::is_valid(check_hash)];
    - [get_num_tracks]: the number of tracks stored in a blob;
    - [sample]: the value of a track of a blob at a seeked time. *)
Record acl_library : Type := {
  compress_track_list : list track_float1f -> ErrorResult * compressed_tracks;
  is_valid : compressed_tracks -> bool -> ErrorResult;
  get_num_tracks : compressed_tracks -> nat;
  sample : compressed_tracks -> float -> SampleRoundingPolicy -> nat -> float
}.

(** ** Calls, assertions and the execution monad *)

(** The calls made to the library and the writes made to the caller's curve
    buffer, in the order in which they happen. *)
Inductive call : Type :=
| call_compress_track_list
| call_is_valid (check_hash : bool)
| call_initialize
| call_seek (sample_time : float) (rounding_policy : SampleRoundingPolicy)
| call_decompress_tracks
| call_decompress_track (track_index : nat)
| call_Curves_Set (uid : UID_Type) (value : float).

(** A run either returns or dies on a failed [check] (a fatal error). *)
Inductive outcome (A : Type) : Type :=
| Returned (a : A)
| CheckFailed.
Arguments Returned {A} a.
Arguments CheckFailed {A}.

Definition exec (A : Type) : Type := list call -> outcome A * list call.

Global Instance exec_ret : MRet exec := fun A a tr => (Returned a, tr).

Global Instance exec_bind : MBind exec := fun A B f m tr =>
  match m tr with
  | (Returned a, tr') => f a tr'
  | (CheckFailed, tr') => (CheckFailed, tr')
  end.

Definition emit (c : call) : exec unit := fun tr => (Returned tt, tr ++ [c]).

(** The engine's [check(expr)], taken as compiled in (as it is in editor and
    development builds): a failed check is fatal. *)
Definition check (expr : bool) : exec unit := fun tr =>
  if expr then (Returned tt, tr) else (CheckFailed, tr).

(** Runs from the empty history. *)
Definition run {A : Type} (m : exec A) : outcome A * list call := m [].

(** The loop [for (i = first; i < first + count; ++i)] over effectful bodies. *)
Fixpoint for_rangeM {S : Type} (first count : nat) (body : nat -> S -> exec S)
    (s : S) : exec S :=
  match count with
  | O => mret s
  | Datatypes.S count' =>
      s' ← body first s; for_rangeM (Datatypes.S first) count' body s'
  end.

(** ** The caller's curve buffer *)

Record FCurveElement : Type := { Value : float; bValid : bool }.

(** Modelled from the spec: the engine's [FBlendedCurve] is not part of the
    sources; it is the "caller-provided sparse curve buffer" in which an
    identity is "enabled" or not: a finite map from the identities the buffer
    knows to a value and a validity flag.  [Set] writes the value of an
    identity the buffer knows and marks it valid. *)
Definition IsEnabled (Curves : gmap UID_Type FCurveElement) (InUid : UID_Type) : bool :=
  match Curves !! InUid with
  | Some Element => bValid Element
  | None => false
  end.

(** [FBlendedCurve::Set]; [Set] is a keyword, hence the name. *)
Definition Set_ (Curves : gmap UID_Type FCurveElement) (InUid : UID_Type)
    (InValue : float) : gmap UID_Type FCurveElement :=
  match Curves !! InUid with
  | Some _ => <[InUid := {| Value := InValue; bValid := true |}]> Curves
  | None => Curves
  end.

(** ** Compression: the call to ACL and the result *)

Record FAnimCurveCompressionResult : Type := {
  CompressedBytes : list Byte.byte;
  Codec : option UAnimCurveCompressionCodec_ACL
}.

Section Codec.

Variable acl : acl_library.
Variable Size : FVector -> float.

(** [checkSlow] is compiled in debug builds only. *)
Variable DO_GUARD_SLOW : bool.

Definition checkSlow (expr : exec bool) : exec unit :=
  if DO_GUARD_SLOW then b ← expr; check b else mret tt.

Definition Compress (this : UAnimCurveCompressionCodec_ACL)
    (AnimSeq : FCompressibleAnimData) (OutResult : FAnimCurveCompressionResult)
    : exec (bool * FAnimCurveCompressionResult) :=
  let Tracks := Compress_tracks Size this AnimSeq in
  emit call_compress_track_list;;
  let '(CompressionResult, CompressedTracks) := compress_track_list acl Tracks in
  if ErrorResult_any CompressionResult
  then mret (false, OutResult)
  else
    checkSlow (emit (call_is_valid true);;
               mret (ErrorResult_empty (is_valid acl CompressedTracks true)));;
    let OutResult :=
      {| CompressedBytes := CompressedTracks; Codec := Some this |} in
    mret (true, OutResult).

(** ** Decompression *)

Record FCompressedAnimSequence : Type := {
  CompressedCurveNames : list FSmartName;
  CompressedCurveByteStream : list Byte.byte
}.

(** [acl::decompression_context]: the blob it is bound to and where it was
    last sought. *)
Record decompression_context : Type := {
  ctx_tracks : compressed_tracks;
  ctx_seek : option (float * SampleRoundingPolicy)
}.

Definition initialize (tracks : compressed_tracks) : exec decompression_context :=
  emit call_initialize;;
  mret {| ctx_tracks := tracks; ctx_seek := None |}.

Definition seek (Context : decompression_context) (sample_time : float)
    (rounding_policy : SampleRoundingPolicy) : exec decompression_context :=
  emit (call_seek sample_time rounding_policy);;
  mret {| ctx_tracks := ctx_tracks Context;
          ctx_seek := Some (sample_time, rounding_policy) |}.

(** [acl::track_writer]: what a writer must provide. *)
Class track_writer (W : Type) : Type :=
  write_float1 : W -> nat -> float -> exec W.

(** The value written for a track; a context must have been sought. *)
Definition read_track (Context : decompression_context) (track_index : nat)
    : exec float :=
  match ctx_seek Context with
  | Some (sample_time, rounding_policy) =>
      mret (sample acl (ctx_tracks Context) sample_time rounding_policy track_index)
  | None => check false;; mret F32.zero
  end.

Definition decompress_tracks {W : Type} `{track_writer W}
    (Context : decompression_context) (writer : W) : exec W :=
  emit call_decompress_tracks;;
  for_rangeM 0 (get_num_tracks acl (ctx_tracks Context))
    (fun track_index writer =>
       value ← read_track Context track_index;
       write_float1 writer track_index value)
    writer.

Definition decompress_track {W : Type} `{track_writer W}
    (Context : decompression_context) (track_index : nat) (writer : W) : exec W :=
  emit (call_decompress_track track_index);;
  value ← read_track Context track_index;
  write_float1 writer track_index value.

(** [struct UE4CurveWriter]. *)
Record UE4CurveWriter : Type := {
  Writer_CompressedCurveNames : list FSmartName;
  Writer_Curves : gmap UID_Type FCurveElement
}.

(** [TArray::operator[]] range-checks its index. *)
Global Instance UE4CurveWriter_writer : track_writer UE4CurveWriter :=
  fun this TrackIndex Value =>
    match Writer_CompressedCurveNames this !! TrackIndex with
    | None => check false;; mret this
    | Some CurveName =>
        if IsEnabled (Writer_Curves this) (UID CurveName)
        then
          emit (call_Curves_Set (UID CurveName) Value);;
          mret {| Writer_CompressedCurveNames := Writer_CompressedCurveNames this;
                  Writer_Curves := Set_ (Writer_Curves this) (UID CurveName) Value |}
        else mret this
    end.

Definition DecompressCurves (AnimSeq : FCompressedAnimSequence)
    (Curves : gmap UID_Type FCurveElement) (CurrentTime : float)
    : exec (gmap UID_Type FCurveElement) :=
  let CompressedCurveNames := CompressedCurveNames AnimSeq in
  let NumCurves := length CompressedCurveNames in
  if (NumCurves =? 0)%nat then mret Curves
  else
    let CompressedTracks := CompressedCurveByteStream AnimSeq in
    emit (call_is_valid false);;
    check (ErrorResult_empty (is_valid acl CompressedTracks false));;
    Context ← initialize CompressedTracks;
    Context ← seek Context CurrentTime SampleRoundingPolicy_None;
    let TrackWriter :=
      {| Writer_CompressedCurveNames := CompressedCurveNames;
         Writer_Curves := Curves |} in
    TrackWriter ← decompress_tracks Context TrackWriter;
    mret (Writer_Curves TrackWriter).

(** [struct UE4ScalarCurveWriter]; its constructor sets [SampleValue(0.0f)]. *)
Record UE4ScalarCurveWriter : Type := { SampleValue : float }.

Definition UE4ScalarCurveWriter_new : UE4ScalarCurveWriter :=
  {| SampleValue := F32.zero |}.

Global Instance UE4ScalarCurveWriter_writer : track_writer UE4ScalarCurveWriter :=
  fun this _ Value => mret {| SampleValue := Value |}.

(** Lines 293-301 of [DecompressCurve]: the scan, which stops at the first
    match; [TrackIndex] stays [-1] when nothing matches. *)
Fixpoint DecompressCurve_scan (CompressedCurveNames : list FSmartName)
    (CurveIndex : Z) (CurveUID : UID_Type) : Z :=
  match CompressedCurveNames with
  | [] => -1
  | CurveName :: rest =>
      if (UID CurveName =? CurveUID)%N then CurveIndex
      else DecompressCurve_scan rest (CurveIndex + 1) CurveUID
  end.

Definition DecompressCurve (AnimSeq : FCompressedAnimSequence)
    (CurveUID : UID_Type) (CurrentTime : float) : exec float :=
  let CompressedCurveNames := CompressedCurveNames AnimSeq in
  let NumCurves := length CompressedCurveNames in
  if (NumCurves =? 0)%nat then mret F32.zero
  else
    let CompressedTracks := CompressedCurveByteStream AnimSeq in
    emit (call_is_valid false);;
    check (ErrorResult_empty (is_valid acl CompressedTracks false));;
    Context ← initialize CompressedTracks;
    Context ← seek Context CurrentTime SampleRoundingPolicy_None;
    let TrackIndex := DecompressCurve_scan CompressedCurveNames 0 CurveUID in
    if TrackIndex <? 0 then mret F32.zero  (* Track not found *)
    else
      let TrackWriter := UE4ScalarCurveWriter_new in
      TrackWriter ← decompress_track Context (Z.to_nat TrackIndex) TrackWriter;
      mret (SampleValue TrackWriter).

End Codec.

(** * Definitions used to state the properties *)

(** The evaluation time of sample [i] in the words of the specification:
    [clamp(i / sample_rate, 0, sequence_length)]. *)
Definition spec_sample_time (NumSamples : Z) (SequenceLength : float)
    (i : nat) : float :=
  FMath_Clamp
    (F32.div (F32.of_int (Z.of_nat i)) (SampleRate NumSamples SequenceLength))
    F32.zero SequenceLength.

(** The calls made before the tracks are read. *)
Definition decompression_prefix (CurrentTime : float) : list call :=
  [call_is_valid false; call_initialize;
   call_seek CurrentTime SampleRoundingPolicy_None; call_decompress_tracks].

(** A write to the buffer that the claim allows: the identity is one of the
    track identities and was enabled in the buffer the caller passed. *)
Definition allowed_write (Names : list FSmartName)
    (Curves : gmap UID_Type FCurveElement) (c : call) : Prop :=
  exists uid value,
    c = call_Curves_Set uid value /\
    IsEnabled Curves uid = true /\ uid ∈ (UID <$> Names).

(** What holds of the writer between two tracks. *)
Definition writer_invariant (Names : list FSmartName)
    (Curves : gmap UID_Type FCurveElement) (prefix : list call)
    (Writer : UE4CurveWriter) (tr : list call) : Prop :=
  Writer_CompressedCurveNames Writer = Names /\
  (forall uid, IsEnabled (Writer_Curves Writer) uid = IsEnabled Curves uid) /\
  (forall uid, IsEnabled Curves uid = false \/ uid ∉ (UID <$> Names) ->
     Writer_Curves Writer !! uid = Curves !! uid) /\
  exists writes,
    tr = prefix ++ writes /\ Forall (allowed_write Names Curves) writes.

(** What holds when the range check of the identity list fails. *)
Definition writer_failure (Names : list FSmartName)
    (Curves : gmap UID_Type FCurveElement) (prefix : list call)
    (num_tracks : nat) (tr : list call) : Prop :=
  (length Names < num_tracks)%nat /\
  exists writes,
    tr = prefix ++ writes /\ Forall (allowed_write Names Curves) writes.

(** A call that positions the cursor or reads track values out of the blob. *)
Definition reads_blob (c : call) : bool :=
  match c with
  | call_seek _ _ | call_decompress_tracks | call_decompress_track _
  | call_Curves_Set _ _ => true
  | _ => false
  end.

(** The history of a run that validated the blob before anything else. *)
Definition validated_first (valid : bool) (tr : list call) : Prop :=
  tr = [] \/
  exists rest,
    tr = call_is_valid false :: rest /\
    (rest <> [] -> valid = true) /\
    call_is_valid true ∉ rest.

(** ** Concrete inputs *)

Module Examples.

Definition add (x y : float) : float := SFadd F32.prec F32.emax x y.
Definition sqrt (x : float) : float := SFsqrt F32.prec F32.emax x.

(** The Euclidean length, as a concrete [FVector::Size]. *)
Definition FVector_Size (V : FVector) : float :=
  sqrt (add (add (F32.mul (X V) (X V)) (F32.mul (Y V) (Y V)))
            (F32.mul (Z_ V) (Z_ V))).

Definition vec (x y z : Z) : FMorphTargetDelta :=
  {| PositionDelta :=
       {| X := F32.of_int x; Y := F32.of_int y; Z_ := F32.of_int z |} |}.

(** A curve whose value at time [t] is [t]. *)
Definition ramp (name : string) (uid : UID_Type) : FFloatCurve :=
  {| Name := {| DisplayName := name; UID := uid |};
     FloatCurve := {| Eval := fun t => t |} |}.

(** A mesh with one morph target, "Smile", that moves two vertices by 3 and
    by 5 units. *)
Definition mesh : USkeletalMesh :=
  {| FindMorphTarget := fun name =>
       if String.eqb name "Smile"
       then Some {| GetMorphTargetDelta := fun _ => [vec 3 0 0; vec 3 4 0] |}
       else None |}.

Definition codec : UAnimCurveCompressionCodec_ACL :=
  {| CurvePrecision := F32.lit_0_001;
     MorphTargetPositionPrecision := F32.lit_0_01;
     MorphTargetSource := Some mesh |}.

(** Two curves, eight frames over one second. *)
Definition anim : FCompressibleAnimData :=
  {| FloatCurves := [ramp "Smile" 7%N; ramp "Speed" 9%N];
     NumFrames := 8;
     SequenceLength := F32.one |}.

(** One frame over one second. *)
Definition anim_single : FCompressibleAnimData :=
  {| FloatCurves := [ramp "Speed" 9%N];
     NumFrames := 1;
     SequenceLength := F32.one |}.

(** One frame, and a sequence length of [-1.0f]. *)
Definition anim_negative : FCompressibleAnimData :=
  {| FloatCurves := [ramp "Speed" 9%N];
     NumFrames := 1;
     SequenceLength := SFopp F32.one |}.

Definition five : float := Eval vm_compute in F32.of_int 5.

Definition empty_result : FAnimCurveCompressionResult :=
  {| CompressedBytes := []; Codec := None |}.

(** A library whose compressor rejects every input and whose blobs are all
    malformed. *)
Definition acl_rejecting : acl_library :=
  {| compress_track_list := fun _ => (Some "rejected"%string, []);
     is_valid := fun _ _ => Some "malformed"%string;
     get_num_tracks := fun _ => O;
     sample := fun _ _ _ _ => F32.zero |}.

(** A library that accepts every blob; a blob holds two tracks, and the value
    of track [i] is [i], at every time. *)
Definition acl_accepting : acl_library :=
  {| compress_track_list := fun _ => (None, []);
     is_valid := fun _ _ => None;
     get_num_tracks := fun _ => 2%nat;
     sample := fun _ _ _ i => F32.of_int (Z.of_nat i) |}.

End Examples.

Module BufferExample.

Definition names : list FSmartName :=
  [{| DisplayName := "Smile"; UID := 7%N |};
   {| DisplayName := "Speed"; UID := 9%N |}].

Definition blob : FCompressedAnimSequence :=
  {| CompressedCurveNames := names; CompressedCurveByteStream := [] |}.

(** Identity 7 is enabled, identity 9 is known but not enabled. *)
Definition buffer : gmap UID_Type FCurveElement :=
  <[7%N := {| Value := F32.thirty; bValid := true |}]>
    (<[9%N := {| Value := F32.thirty; bValid := false |}]> ∅).

End BufferExample.

(** ** The value of a float, for the proofs about rounding *)

Module Rounding.

Local Open Scope R_scope.

(** [2^e], and the real number [m * 2^e]. *)
Definition bpow (e : Z) : R := powerRZ 2 e.
Definition F2R (m e : Z) : R := IZR m * bpow e.

(** [cmp c a b]: comparing [a] with [b] gives [c]. *)
Definition cmp (c : comparison) (a b : R) : Prop :=
  match c with Lt => a < b | Eq => a = b | Gt => b < a end.

(** The rounding functions of [SpecFloat] carry a real [v] as a mantissa, an
    exponent and the location of [v] between [m * 2^e] and [(m + 1) * 2^e]:
    on the lower end, or inside, and then below, at or above the middle. *)
Definition represents (m e : Z) (l : location) (v : R) : Prop :=
  match l with
  | loc_Exact => v = F2R m e
  | loc_Inexact c =>
      F2R m e < v < F2R (m + 1) e /\ cmp c v (F2R m e + bpow e / 2)
  end.

Definition represents_record (mrs : shr_record) (e : Z) (v : R) : Prop :=
  represents (shr_m mrs) e (loc_of_shr_record mrs) v.

(** The exponent at which binary32 cuts a positive [v]: 24 bits below the
    magnitude of [v], and never below -149. *)
Definition scale_ok (v : R) (E : Z) : Prop :=
  (E = (-149)%Z /\ v < bpow (-125)) \/
  ((-149 < E)%Z /\ bpow (E + 23) <= v < bpow (E + 24)).

(** The position of a rounded value in the increasing enumeration of the
    non-negative binary32 numbers. *)
Definition rank (E m : Z) : Z := ((E + 149) * 8388608 + m)%Z.

(** The float that [binary_round_aux] builds from a rounded mantissa. *)
Definition finish (E m : Z) : spec_float :=
  match m with
  | Z0 => S754_zero false
  | Zpos p =>
      if (m <? 16777216)%Z then
        if (E <=? 104)%Z then S754_finite false p E else S754_infinity false
      else
        if (E + 1 <=? 104)%Z then S754_finite false 8388608 (E + 1)
        else S754_infinity false
  | Zneg _ => S754_nan
  end.

(** A non-negative binary32 number and its rank. *)
Definition ranked (f : spec_float) (r : Z) : Prop :=
  match f with
  | S754_zero false => r = 0%Z
  | S754_finite false m e =>
      (-149 <= e <= 104 /\ r = rank e (Z.pos m) /\ Z.pos m < 16777216 /\
       (-149 < e -> 8388608 <= Z.pos m))%Z
  | S754_infinity false => (rank 105 8388608 <= r)%Z
  | _ => False
  end.

End Rounding.

(** * The rest of the codec *)

(** ** The derived-data cache key *)

(** [FGuid]: four 32-bit words. *)
Record FGuid : Type := { Guid_A : Z; Guid_B : Z; Guid_C : Z; Guid_D : Z }.

Record FSkeletalMeshModel : Type := { SkeletalMeshModelGUID : FGuid }.

(** What [Ar << value] appends to an archive that is being written. *)
Inductive archived : Type :=
| Ar_float (value : float)
| Ar_FGuid (value : FGuid)
| Ar_uint32 (value : Z)
| Ar_uint16 (value : Z).

Definition FArchive : Type := list archived.

Section DDCKey.

(** The key of the base class, [USkeletalMesh::GetImportedModel] and
    [acl::get_algorithm_version(AlgorithmType8::UniformlySampled)]. *)
Variable Super_PopulateDDCKey :
  UAnimCurveCompressionCodec_ACL -> FArchive -> FArchive.
Variable GetImportedModel : USkeletalMesh -> option FSkeletalMeshModel.
Variable get_algorithm_version : Z.

Definition PopulateDDCKey (this : UAnimCurveCompressionCodec_ACL)
    (Ar : FArchive) : FArchive :=
  let Ar := Super_PopulateDDCKey this Ar in
  let Ar := Ar ++ [Ar_float (CurvePrecision this)] in
  let Ar := Ar ++ [Ar_float (MorphTargetPositionPrecision this)] in
  let Ar :=
    match MorphTargetSource this with
    | Some Mesh =>
        match GetImportedModel Mesh with
        | Some MeshModel => Ar ++ [Ar_FGuid (SkeletalMeshModelGUID MeshModel)]
        | None => Ar
        end
    | None => Ar
    end in
  let ForceRebuildVersion := 0 in
  let Ar := Ar ++ [Ar_uint32 ForceRebuildVersion] in
  let AlgorithmVersion := get_algorithm_version in
  Ar ++ [Ar_uint16 AlgorithmVersion].

(** The mesh identifier that enters the key, if one does. *)
Definition key_guid (this : UAnimCurveCompressionCodec_ACL) : option FGuid :=
  match MorphTargetSource this with
  | Some Mesh =>
      match GetImportedModel Mesh with
      | Some MeshModel => Some (SkeletalMeshModelGUID MeshModel)
      | None => None
      end
  | None => None
  end.

End DDCKey.

(** ** The conversions of ACLImpl.h *)

Record FQuat : Type := {
  Quat_X : float; Quat_Y : float; Quat_Z : float; Quat_W : float
}.

(** The engine's [FTransform], as the triple that its constructor takes and
    that [GetRotation], [GetTranslation] and [GetScale3D] return. *)
Record FTransform : Type := {
  GetRotation : FQuat;
  GetTranslation : FVector;
  GetScale3D : FVector
}.

(** The vector and quaternion types of ACL with their constructors and
    accessors; [acl::Transform_32] is a structure of three fields. *)
Record acl_math : Type := {
  Vector4_32 : Type;
  Quat_32 : Type;
  vector_set : float -> float -> float -> Vector4_32;
  vector_get_x : Vector4_32 -> float;
  vector_get_y : Vector4_32 -> float;
  vector_get_z : Vector4_32 -> float;
  quat_set : float -> float -> float -> float -> Quat_32;
  quat_get_x : Quat_32 -> float;
  quat_get_y : Quat_32 -> float;
  quat_get_z : Quat_32 -> float;
  quat_get_w : Quat_32 -> float
}.

Record Transform_32 (M : acl_math) : Type := {
  rotation : Quat_32 M;
  translation : Vector4_32 M;
  scale : Vector4_32 M
}.
Arguments rotation {M} _.
Arguments translation {M} _.
Arguments scale {M} _.

(** [acl::transform_set(rotation, translation, scale)]. *)
Definition transform_set {M : acl_math} (r : Quat_32 M) (t s : Vector4_32 M)
    : Transform_32 M :=
  {| rotation := r; translation := t; scale := s |}.

Section Casts.

Variable M : acl_math.

(** The overloads of [VectorCast], [QuatCast] and [TransformCast], named
    after the type they produce. *)
Definition VectorCast_Vector4_32 (Input : FVector) : Vector4_32 M :=
  vector_set M (X Input) (Y Input) (Z_ Input).

Definition VectorCast_FVector (Input : Vector4_32 M) : FVector :=
  {| X := vector_get_x M Input;
     Y := vector_get_y M Input;
     Z_ := vector_get_z M Input |}.

Definition QuatCast_Quat_32 (Input : FQuat) : Quat_32 M :=
  quat_set M (Quat_X Input) (Quat_Y Input) (Quat_Z Input) (Quat_W Input).

Definition QuatCast_FQuat (Input : Quat_32 M) : FQuat :=
  {| Quat_X := quat_get_x M Input;
     Quat_Y := quat_get_y M Input;
     Quat_Z := quat_get_z M Input;
     Quat_W := quat_get_w M Input |}.

Definition TransformCast_Transform_32 (Input : FTransform) : Transform_32 M :=
  transform_set (QuatCast_Quat_32 (GetRotation Input))
    (VectorCast_Vector4_32 (GetTranslation Input))
    (VectorCast_Vector4_32 (GetScale3D Input)).

Definition TransformCast_FTransform (Input : Transform_32 M) : FTransform :=
  {| GetRotation := QuatCast_FQuat (rotation Input);
     GetTranslation := VectorCast_FVector (translation Input);
     GetScale3D := VectorCast_FVector (scale Input) |}.

(** The accessors read what the constructors stored. *)
Definition accessors_read_back : Prop :=
  (forall x y z,
     vector_get_x M (vector_set M x y z) = x /\
     vector_get_y M (vector_set M x y z) = y /\
     vector_get_z M (vector_set M x y z) = z) /\
  (forall x y z w,
     quat_get_x M (quat_set M x y z w) = x /\
     quat_get_y M (quat_set M x y z w) = y /\
     quat_get_z M (quat_set M x y z w) = z /\
     quat_get_w M (quat_set M x y z w) = w).

End Casts.

(** ** Definitions used to state the further properties *)

Definition is_nan (x : float) : bool :=
  match x with S754_nan => true | _ => false end.

(** Neither an infinity nor a NaN. *)
Definition is_finite (x : float) : bool :=
  match x with S754_zero _ | S754_finite _ _ _ => true | _ => false end.

(** The sizes of the vertex deltas of a morph target at level of detail 0. *)
Definition delta_sizes (Size : FVector -> float) (Target : UMorphTarget)
    : list float :=
  (fun Delta => Size (PositionDelta Delta)) <$> GetMorphTargetDelta Target 0.

Module MoreExamples.

Definition guid (n : Z) : FGuid :=
  {| Guid_A := n; Guid_B := 0; Guid_C := 0; Guid_D := 0 |}.

(** A library whose vectors and quaternions are four floats. *)
Definition four_floats : acl_math :=
  {| Vector4_32 := float * float * float * float;
     Quat_32 := float * float * float * float;
     vector_set := fun x y z => (x, y, z, F32.zero);
     vector_get_x := fun v => fst (fst (fst v));
     vector_get_y := fun v => snd (fst (fst v));
     vector_get_z := fun v => snd (fst v);
     quat_set := fun x y z w => (x, y, z, w);
     quat_get_x := fun q => fst (fst (fst q));
     quat_get_y := fun q => snd (fst (fst q));
     quat_get_z := fun q => snd (fst q);
     quat_get_w := fun q => snd q |}.

Definition transform : FTransform :=
  {| GetRotation :=
       {| Quat_X := F32.zero; Quat_Y := F32.zero; Quat_Z := F32.zero;
          Quat_W := F32.one |};
     GetTranslation :=
       {| X := F32.one; Y := F32.thirty; Z_ := F32.zero |};
     GetScale3D := {| X := F32.one; Y := F32.one; Z_ := F32.one |} |}.

(** No frame at all. *)
Definition anim_empty : FCompressibleAnimData :=
  {| FloatCurves := [Examples.ramp "Smile" 7%N; Examples.ramp "Speed" 9%N];
     NumFrames := 0;
     SequenceLength := F32.one |}.

(** The identity 7 at the track indices 1 and 2. *)
Definition names_twice : list FSmartName :=
  [{| DisplayName := "Speed"; UID := 9%N |};
   {| DisplayName := "Smile"; UID := 7%N |};
   {| DisplayName := "Grin"; UID := 7%N |}].

Definition blob_twice : FCompressedAnimSequence :=
  {| CompressedCurveNames := names_twice; CompressedCurveByteStream := [] |}.

(** A library that accepts every blob; a blob holds three tracks, and the
    value of track [i] is [i], at every time. *)
Definition acl_three : acl_library :=
  {| compress_track_list := fun _ => (None, []);
     is_valid := fun _ _ => None;
     get_num_tracks := fun _ => 3%nat;
     sample := fun _ _ _ i => F32.of_int (Z.of_nat i) |}.

End MoreExamples.

(** * Properties *)

(** ** Loops *)

Lemma for_range_length {A : Type} (f : nat -> A) (count first : nat) (l : list A) :
  length (for_range first count (fun i l => <[i := f i]> l) l) = length l.
Proof.
  revert first l. induction count as [|count IH]; intros first l; simpl.
  - reflexivity.
  - rewrite IH. apply length_insert.
Qed.

Lemma for_range_lookup_in {A : Type} (f : nat -> A) (count first : nat)
    (l : list A) (i : nat) :
  (first <= i < first + count)%nat -> (i < length l)%nat ->
  for_range first count (fun i l => <[i := f i]> l) l !! i = Some (f i).
Proof.
  revert first l. induction count as [|count IH]; intros first l Hi Hl; simpl.
  - lia.
  - destruct (decide (i = first)) as [->|Hne].
    + clear IH Hi. generalize (Datatypes.S first) (Nat.lt_succ_diag_r first).
      intros k Hk.
      assert (Hx : <[first := f first]> l !! first = Some (f first))
        by (apply list_lookup_insert_eq; exact Hl).
      revert Hx. generalize (<[first := f first]> l). clear Hl l.
      revert k Hk. induction count as [|count IH]; intros k Hk l Hx; simpl.
      * exact Hx.
      * apply IH; [lia|]. rewrite list_lookup_insert_ne by lia. exact Hx.
    + apply IH; [lia|]. rewrite length_insert. exact Hl.
Qed.

Lemma for_range_project {S T : Type} (g : S -> T) (body : nat -> S -> S)
    (body' : nat -> T -> T) (count first : nat) (s : S) :
  (forall i s, g (body i s) = body' i (g s)) ->
  g (for_range first count body s) = for_range first count body' (g s).
Proof.
  intros Hg. revert first s.
  induction count as [|count IH]; intros first s; simpl.
  - reflexivity.
  - rewrite IH, Hg. reflexivity.
Qed.

Lemma for_range_id {S : Type} (count first : nat) (s : S) :
  for_range first count (fun _ s => s) s = s.
Proof.
  revert first. induction count as [|count IH]; intros first; simpl; auto.
Qed.

(** ** What [Compress] hands to ACL *)

Section CompressFacts.

Variable Size : FVector -> float.
Variable this : UAnimCurveCompressionCodec_ACL.
Variable AnimSeq : FCompressibleAnimData.

Lemma GetMorphTargetMaxPositionDeltas_length :
  length (GetMorphTargetMaxPositionDeltas Size AnimSeq (MorphTargetSource this))
  = length (FloatCurves AnimSeq).
Proof.
  unfold GetMorphTargetMaxPositionDeltas.
  destruct (MorphTargetSource this) as [Mesh|].
  - rewrite for_range_length. apply length_replicate.
  - apply length_replicate.
Qed.

Lemma Compress_tracks_length :
  length (Compress_tracks Size this AnimSeq) = length (FloatCurves AnimSeq).
Proof.
  unfold Compress_tracks. rewrite for_range_length. apply length_replicate.
Qed.

Lemma Compress_tracks_lookup (CurveIndex : nat) (Track : track_float1f) :
  Compress_tracks Size this AnimSeq !! CurveIndex = Some Track ->
  (CurveIndex < length (FloatCurves AnimSeq))%nat /\
  Track = Compress_track this AnimSeq
            (GetMorphTargetMaxPositionDeltas Size AnimSeq (MorphTargetSource this)
               !!! CurveIndex)
            CurveIndex (FloatCurves AnimSeq !!! CurveIndex).
Proof.
  intros Hlook.
  assert (Hlt : (CurveIndex < length (FloatCurves AnimSeq))%nat).
  { rewrite <- Compress_tracks_length. eapply lookup_lt_Some, Hlook. }
  split; [exact Hlt|].
  unfold Compress_tracks in Hlook.
  rewrite for_range_lookup_in in Hlook.
  - congruence.
  - lia.
  - rewrite length_replicate. exact Hlt.
Qed.

Lemma Compress_track_desc (MaxPositionDelta : float) (CurveIndex : nat)
    (Curve : FFloatCurve) :
  desc (Compress_track this AnimSeq MaxPositionDelta CurveIndex Curve)
  = {| output_index := Z.of_nat CurveIndex;
       precision := Precision this MaxPositionDelta;
       constant_threshold := Precision this MaxPositionDelta |}.
Proof.
  unfold Compress_track.
  rewrite (for_range_project desc _ (fun _ d => d)) by reflexivity.
  apply for_range_id.
Qed.

Lemma Compress_track_sample_rate (MaxPositionDelta : float) (CurveIndex : nat)
    (Curve : FFloatCurve) :
  sample_rate (Compress_track this AnimSeq MaxPositionDelta CurveIndex Curve)
  = SampleRate (NumFrames AnimSeq) (SequenceLength AnimSeq).
Proof.
  unfold Compress_track.
  rewrite (for_range_project sample_rate _ (fun _ d => d)) by reflexivity.
  apply for_range_id.
Qed.

Lemma Compress_track_samples (MaxPositionDelta : float) (CurveIndex : nat)
    (Curve : FFloatCurve) :
  samples (Compress_track this AnimSeq MaxPositionDelta CurveIndex Curve)
  = for_range 0 (Z.to_nat (NumFrames AnimSeq))
      (fun SampleIndex l =>
         <[SampleIndex :=
             Eval (FloatCurve Curve)
               (SampleTime (NumFrames AnimSeq) (SequenceLength AnimSeq) SampleIndex)]> l)
      (replicate (Z.to_nat (uint32_of_int32 (NumFrames AnimSeq))) F32.zero).
Proof.
  unfold Compress_track.
  rewrite (for_range_project samples _
             (fun SampleIndex l =>
                <[SampleIndex :=
                    Eval (FloatCurve Curve)
                      (SampleTime (NumFrames AnimSeq) (SequenceLength AnimSeq)
                         SampleIndex)]> l)) by reflexivity.
  reflexivity.
Qed.

End CompressFacts.

(** The largest delta of a curve, as [GetMorphTargetMaxPositionDeltas] leaves
    it in the array. *)
Lemma GetMorphTargetMaxPositionDeltas_lookup (Size : FVector -> float)
    (AnimSeq : FCompressibleAnimData) (Source : option USkeletalMesh)
    (CurveIndex : nat) :
  (CurveIndex < length (FloatCurves AnimSeq))%nat ->
  GetMorphTargetMaxPositionDeltas Size AnimSeq Source !! CurveIndex
  = Some
      match Source with
      | None => F32.zero
      | Some Mesh =>
          match FindMorphTarget Mesh
                  (DisplayName (Name (FloatCurves AnimSeq !!! CurveIndex))) with
          | Some Target =>
              fold_left
                (fun MaxDeltaPosition Delta =>
                   FMath_Max MaxDeltaPosition (Size (PositionDelta Delta)))
                (GetMorphTargetDelta Target 0) F32.zero
          | None => F32.zero
          end
      end.
Proof.
  intros Hlt. unfold GetMorphTargetMaxPositionDeltas.
  destruct Source as [Mesh|].
  - rewrite for_range_lookup_in; [reflexivity|lia|].
    rewrite length_replicate. exact Hlt.
  - apply lookup_replicate_2. exact Hlt.
Qed.


(** ** The claims about compression *)

(** C1. For every curve, the precision handed to ACL is the configured morph
    target precision divided by the curve's largest morph target position
    delta when that delta is greater than zero, and the configured curve
    precision when the delta is zero: the division is never made by zero. *)
Theorem Compress_precision_derived (Size : FVector -> float)
    (this : UAnimCurveCompressionCodec_ACL) (AnimSeq : FCompressibleAnimData)
    (CurveIndex : nat) (Track : track_float1f) (MaxPositionDelta : float) :
  Compress_tracks Size this AnimSeq !! CurveIndex = Some Track ->
  GetMorphTargetMaxPositionDeltas Size AnimSeq (MorphTargetSource this) !! CurveIndex
    = Some MaxPositionDelta ->
  (F32.gt MaxPositionDelta F32.zero = true ->
     precision (desc Track)
     = F32.div (MorphTargetPositionPrecision this) MaxPositionDelta) /\
  (F32.is_zero MaxPositionDelta = true ->
     precision (desc Track) = CurvePrecision this).
Proof.
  intros Htrack Hdelta.
  apply Compress_tracks_lookup in Htrack as [_ ->].
  rewrite Compress_track_desc; simpl.
  rewrite (list_lookup_total_correct _ _ _ Hdelta).
  unfold Precision. split; intros Hcase.
  - rewrite Hcase. reflexivity.
  - destruct MaxPositionDelta; try discriminate Hcase. reflexivity.
Qed.

Lemma Compress_precision_derived_witness :
  let Tracks := Compress_tracks Examples.FVector_Size Examples.codec Examples.anim in
  precision (desc (Tracks !!! 0%nat)) = F32.div F32.lit_0_01 Examples.five /\
  precision (desc (Tracks !!! 1%nat)) = F32.lit_0_001.
Proof.
  split.
  - apply (Compress_precision_derived Examples.FVector_Size Examples.codec
             Examples.anim 0 _ Examples.five); vm_compute; reflexivity.
  - apply (Compress_precision_derived Examples.FVector_Size Examples.codec
             Examples.anim 1 _ F32.zero); vm_compute; reflexivity.
Defined.

(** C3. The sample rate used for resampling, and recorded in every track, is
    30.0 when there is at most one sample or the sequence is shorter than
    0.0001 seconds, and (number of samples - 1) / sequence length otherwise. *)
Theorem Compress_sample_rate (Size : FVector -> float)
    (this : UAnimCurveCompressionCodec_ACL) (AnimSeq : FCompressibleAnimData)
    (CurveIndex : nat) (Track : track_float1f) :
  int32_range (NumFrames AnimSeq) ->
  Compress_tracks Size this AnimSeq !! CurveIndex = Some Track ->
  sample_rate Track = SampleRate (NumFrames AnimSeq) (SequenceLength AnimSeq) /\
  (NumFrames AnimSeq <= 1 \/
   F32.lt (SequenceLength AnimSeq) F32.lit_0_0001 = true ->
     sample_rate Track = F32.thirty) /\
  (~ (NumFrames AnimSeq <= 1 \/
      F32.lt (SequenceLength AnimSeq) F32.lit_0_0001 = true) ->
     sample_rate Track
     = F32.div (F32.of_int (NumFrames AnimSeq - 1)) (SequenceLength AnimSeq)).
Proof.
  intros Hrange Htrack.
  apply Compress_tracks_lookup in Htrack as [_ ->].
  rewrite Compress_track_sample_rate.
  unfold SampleRate, bIsStaticPose.
  split; [reflexivity|]. split.
  - intros [Hn|Hl].
    + apply Z.leb_le in Hn. rewrite Hn. reflexivity.
    + rewrite Hl, orb_true_r. reflexivity.
  - intros Hnot.
    destruct (Z.leb_spec (NumFrames AnimSeq) 1) as [Hn|Hn]; [tauto|].
    destruct (F32.lt (SequenceLength AnimSeq) F32.lit_0_0001); [tauto|].
    simpl. do 2 f_equal.
    unfold int32_sub, int32_wrap. unfold int32_range in Hrange.
    rewrite Z.mod_small; lia.
Qed.

Lemma Compress_sample_rate_witness :
  let Track := Compress_tracks Examples.FVector_Size Examples.codec Examples.anim
                 !!! 0%nat in
  sample_rate Track = F32.div (F32.of_int 7) F32.one /\
  sample_rate (Compress_tracks Examples.FVector_Size Examples.codec
                 Examples.anim_negative !!! 0%nat) = F32.thirty.
Proof.
  split.
  - assert (Hr : int32_range (NumFrames Examples.anim))
      by (unfold int32_range; simpl; lia).
    refine (proj2 (proj2 (Compress_sample_rate Examples.FVector_Size
              Examples.codec Examples.anim 0 _ Hr _)) _).
    + vm_compute; reflexivity.
    + simpl. intros [H|H]; [lia|discriminate H].
  - assert (Hr : int32_range (NumFrames Examples.anim_negative))
      by (unfold int32_range; simpl; lia).
    refine (proj1 (proj2 (Compress_sample_rate Examples.FVector_Size
              Examples.codec Examples.anim_negative 0 _ Hr _)) _).
    + vm_compute; reflexivity.
    + left. simpl. lia.
Defined.

(** C4. Every track built by [Compress] has as output slot the position of
    its curve in the input order, and its precision and its constant
    threshold are the same value, the derived precision. *)
Theorem Compress_track_slot_and_thresholds (Size : FVector -> float)
    (this : UAnimCurveCompressionCodec_ACL) (AnimSeq : FCompressibleAnimData)
    (CurveIndex : nat) (Track : track_float1f) :
  Compress_tracks Size this AnimSeq !! CurveIndex = Some Track ->
  output_index (desc Track) = Z.of_nat CurveIndex /\
  precision (desc Track) = constant_threshold (desc Track) /\
  precision (desc Track)
  = Precision this
      (GetMorphTargetMaxPositionDeltas Size AnimSeq (MorphTargetSource this)
         !!! CurveIndex).
Proof.
  intros Htrack.
  apply Compress_tracks_lookup in Htrack as [_ ->].
  rewrite Compress_track_desc; simpl. auto.
Qed.

Lemma Compress_track_slot_and_thresholds_witness :
  let Track := Compress_tracks Examples.FVector_Size Examples.codec Examples.anim
                 !!! 1%nat in
  output_index (desc Track) = 1 /\
  precision (desc Track) = constant_threshold (desc Track).
Proof.
  pose proof (Compress_track_slot_and_thresholds Examples.FVector_Size
                Examples.codec Examples.anim 1
                (Compress_tracks Examples.FVector_Size Examples.codec Examples.anim
                   !!! 1%nat)) as H.
  destruct H as (H1 & H2 & _); [vm_compute; reflexivity|].
  split; [exact H1|exact H2].
Defined.


(** C2, as stated, fails.  With eight samples over one second the sample rate
    is 7; the code evaluates sample 3 at [3 * (1 / 7)], which in single
    precision is 14380472 * 2^-25, and not at [3 / 7], which is
    14380471 * 2^-25.  With one sample and a sequence length of -1 the
    single sample is evaluated at time -1, not at time 0. *)
Lemma Compress_resampling_counterexample :
  let Track := Compress_tracks Examples.FVector_Size Examples.codec Examples.anim
                 !!! 0%nat in
  let Track' := Compress_tracks Examples.FVector_Size Examples.codec
                  Examples.anim_negative !!! 0%nat in
  (samples Track !! 3%nat = Some (S754_finite false 14380472 (-25)) /\
   spec_sample_time 8 F32.one 3 = S754_finite false 14380471 (-25) /\
   samples Track !! 3%nat
   <> Some (Eval (FloatCurve (Examples.ramp "Smile" 7%N))
              (spec_sample_time 8 F32.one 3))) /\
  (samples Track' = [SFopp F32.one] /\
   samples Track'
   <> [Eval (FloatCurve (Examples.ramp "Speed" 9%N)) F32.zero]).
Proof.
  vm_compute. repeat split; discriminate.
Qed.

(** C2, amended.  For every curve and every number of samples [n >= 0] the
    track holds exactly [n] values in index order; the value at index [i] is
    the curve evaluated at [clamp(i * (1 / sample_rate), 0, sequence_length)],
    the reciprocal of the sample rate being rounded to single precision before
    the multiplication; when [n = 1] and the sequence length is not negative,
    the single sample's evaluation time is zero. *)
Theorem Compress_resampling (Size : FVector -> float)
    (this : UAnimCurveCompressionCodec_ACL) (AnimSeq : FCompressibleAnimData)
    (CurveIndex : nat) (Track : track_float1f) :
  int32_range (NumFrames AnimSeq) ->
  0 <= NumFrames AnimSeq ->
  Compress_tracks Size this AnimSeq !! CurveIndex = Some Track ->
  let Curve := FloatCurves AnimSeq !!! CurveIndex in
  let rate := SampleRate (NumFrames AnimSeq) (SequenceLength AnimSeq) in
  length (samples Track) = Z.to_nat (NumFrames AnimSeq) /\
  (forall i : nat, (i < Z.to_nat (NumFrames AnimSeq))%nat ->
     samples Track !! i
     = Some (Eval (FloatCurve Curve)
               (FMath_Clamp
                  (F32.mul (F32.of_int (Z.of_nat i)) (F32.div F32.one rate))
                  F32.zero (SequenceLength AnimSeq)))) /\
  (NumFrames AnimSeq = 1 -> F32.le F32.zero (SequenceLength AnimSeq) = true ->
     exists t : float,
       F32.is_zero t = true /\ samples Track = [Eval (FloatCurve Curve) t]).
Proof.
  intros Hrange Hpos Htrack Curve rate.
  apply Compress_tracks_lookup in Htrack as [_ ->].
  rewrite Compress_track_samples. fold Curve.
  assert (Hreserve : Z.to_nat (uint32_of_int32 (NumFrames AnimSeq))
                     = Z.to_nat (NumFrames AnimSeq)).
  { unfold uint32_of_int32. unfold int32_range in Hrange.
    rewrite Z.mod_small; lia. }
  rewrite Hreserve.
  assert (Hlen : length (for_range 0 (Z.to_nat (NumFrames AnimSeq))
                   (fun SampleIndex l =>
                      <[SampleIndex :=
                          Eval (FloatCurve Curve)
                            (SampleTime (NumFrames AnimSeq)
                               (SequenceLength AnimSeq) SampleIndex)]> l)
                   (replicate (Z.to_nat (NumFrames AnimSeq)) F32.zero))
                 = Z.to_nat (NumFrames AnimSeq)).
  { rewrite (for_range_length
               (fun SampleIndex =>
                  Eval (FloatCurve Curve)
                    (SampleTime (NumFrames AnimSeq) (SequenceLength AnimSeq)
                       SampleIndex))).
    apply length_replicate. }
  assert (Hget : forall i : nat, (i < Z.to_nat (NumFrames AnimSeq))%nat ->
            for_range 0 (Z.to_nat (NumFrames AnimSeq))
              (fun SampleIndex l =>
                 <[SampleIndex :=
                     Eval (FloatCurve Curve)
                       (SampleTime (NumFrames AnimSeq)
                          (SequenceLength AnimSeq) SampleIndex)]> l)
              (replicate (Z.to_nat (NumFrames AnimSeq)) F32.zero) !! i
            = Some (Eval (FloatCurve Curve)
                      (SampleTime (NumFrames AnimSeq) (SequenceLength AnimSeq) i))).
  { intros i Hi.
    apply (for_range_lookup_in
             (fun SampleIndex =>
                Eval (FloatCurve Curve)
                  (SampleTime (NumFrames AnimSeq) (SequenceLength AnimSeq)
                     SampleIndex))); [lia|].
    rewrite length_replicate. exact Hi. }
  split; [exact Hlen|]. split; [exact Hget|].
  intros Hone Hle.
  exists (SampleTime (NumFrames AnimSeq) (SequenceLength AnimSeq) 0). split.
  - rewrite Hone. unfold SampleTime, InvSampleRate, SampleRate, bIsStaticPose.
    simpl Z.leb. simpl orb. cbv iota.
    change (F32.mul (F32.of_int (Z.of_nat 0)) (F32.div F32.one F32.thirty))
      with F32.zero.
    unfold FMath_Clamp. simpl (F32.lt F32.zero F32.zero). cbv iota.
    destruct (SequenceLength AnimSeq) as [s|s| |s m e];
      try destruct s; try discriminate Hle; reflexivity.
  - rewrite Hone. reflexivity.
Qed.

Lemma Compress_resampling_witness :
  let Track := Compress_tracks Examples.FVector_Size Examples.codec Examples.anim
                 !!! 0%nat in
  let Single := Compress_tracks Examples.FVector_Size Examples.codec
                  Examples.anim_single !!! 0%nat in
  (length (samples Track) = 8%nat /\
   samples Track !! 3%nat
   = Some (FMath_Clamp
             (F32.mul (F32.of_int 3)
                (F32.div F32.one (F32.div (F32.of_int 7) F32.one)))
             F32.zero F32.one)) /\
  (exists t : float, F32.is_zero t = true /\ samples Single = [t]).
Proof.
  split.
  - assert (Hr : int32_range (NumFrames Examples.anim))
      by (unfold int32_range; simpl; lia).
    assert (Hp : 0 <= NumFrames Examples.anim) by (simpl; lia).
    pose proof (Compress_resampling Examples.FVector_Size Examples.codec
                  Examples.anim 0
                  (Compress_tracks Examples.FVector_Size Examples.codec
                     Examples.anim !!! 0%nat) Hr Hp) as H.
    destruct H as (H1 & H2 & _); [vm_compute; reflexivity|].
    split; [exact H1|]. apply (H2 3%nat). simpl. lia.
  - assert (Hr : int32_range (NumFrames Examples.anim_single))
      by (unfold int32_range; simpl; lia).
    assert (Hp : 0 <= NumFrames Examples.anim_single) by (simpl; lia).
    pose proof (Compress_resampling Examples.FVector_Size Examples.codec
                  Examples.anim_single 0
                  (Compress_tracks Examples.FVector_Size Examples.codec
                     Examples.anim_single !!! 0%nat) Hr Hp) as H.
    destruct H as (_ & _ & H3); [vm_compute; reflexivity|].
    apply H3; reflexivity.
Defined.

(** C6. Whenever ACL's compressor reports a failure, [Compress] returns
    [false] and hands back the output result as it received it: neither the
    compressed bytes nor the codec reference is touched, and the compressor
    is not called a second time. *)
Theorem Compress_failure_keeps_result (acl : acl_library)
    (Size : FVector -> float) (DO_GUARD_SLOW : bool)
    (this : UAnimCurveCompressionCodec_ACL) (AnimSeq : FCompressibleAnimData)
    (OutResult : FAnimCurveCompressionResult) :
  ErrorResult_any
    (fst (compress_track_list acl (Compress_tracks Size this AnimSeq))) = true ->
  run (Compress acl Size DO_GUARD_SLOW this AnimSeq OutResult)
  = (Returned (false, OutResult), [call_compress_track_list]).
Proof.
  intros Hfail. unfold run, Compress.
  destruct (compress_track_list acl (Compress_tracks Size this AnimSeq))
    as [CompressionResult CompressedTracks].
  simpl in Hfail. unfold mbind, exec_bind, emit. simpl.
  rewrite Hfail. reflexivity.
Qed.

Lemma Compress_failure_keeps_result_witness :
  run (Compress Examples.acl_rejecting Examples.FVector_Size true
         Examples.codec Examples.anim Examples.empty_result)
  = (Returned (false, Examples.empty_result), [call_compress_track_list]).
Proof.
  apply (Compress_failure_keeps_result Examples.acl_rejecting
           Examples.FVector_Size true Examples.codec Examples.anim
           Examples.empty_result).
  reflexivity.
Defined.

(** ** The scan of [DecompressCurve] *)

Lemma DecompressCurve_scan_absent (CompressedCurveNames : list FSmartName)
    (CurveIndex : Z) (CurveUID : UID_Type) :
  CurveUID ∉ (UID <$> CompressedCurveNames) ->
  DecompressCurve_scan CompressedCurveNames CurveIndex CurveUID = -1.
Proof.
  revert CurveIndex.
  induction CompressedCurveNames as [|CurveName rest IH]; intros CurveIndex Hnot;
    simpl.
  - reflexivity.
  - rewrite fmap_cons in Hnot. apply not_elem_of_cons in Hnot as [Hne Hrest].
    destruct (N.eqb_spec (UID CurveName) CurveUID) as [Heq|_]; [congruence|].
    apply IH, Hrest.
Qed.

Lemma DecompressCurve_scan_first (CompressedCurveNames : list FSmartName)
    (CurveIndex : Z) (CurveUID : UID_Type) (i : nat) (CurveName : FSmartName) :
  CompressedCurveNames !! i = Some CurveName ->
  UID CurveName = CurveUID ->
  (forall (j : nat) (Other : FSmartName),
     (j < i)%nat -> CompressedCurveNames !! j = Some Other -> UID Other <> CurveUID) ->
  DecompressCurve_scan CompressedCurveNames CurveIndex CurveUID
  = CurveIndex + Z.of_nat i.
Proof.
  revert CurveIndex i.
  induction CompressedCurveNames as [|Head rest IH];
    intros CurveIndex i Hlook Huid Hfirst.
  - discriminate Hlook.
  - simpl. destruct i as [|i].
    + simpl in Hlook. injection Hlook as ->.
      rewrite (proj2 (N.eqb_eq _ _) Huid). lia.
    + destruct (N.eqb_spec (UID Head) CurveUID) as [Heq|_].
      * exfalso. apply (Hfirst O Head); [lia|reflexivity|exact Heq].
      * rewrite (IH (CurveIndex + 1) i Hlook Huid); [lia|].
        intros j Other Hj Hother.
        apply (Hfirst (Datatypes.S j) Other); [lia|exact Hother].
Qed.

(** ** The claims about single-curve decompression *)

(** C5, as stated, fails.  With a non-empty identity list that does not hold
    the requested identity and a blob that fails the validity check,
    [DecompressCurve] dies on the [check] and returns nothing. *)
Lemma DecompressCurve_missing_counterexample :
  let AnimSeq :=
    {| CompressedCurveNames := [{| DisplayName := "Smile"; UID := 7%N |}];
       CompressedCurveByteStream := [] |} in
  (9%N ∉ (UID <$> CompressedCurveNames AnimSeq)) /\
  run (DecompressCurve Examples.acl_rejecting AnimSeq 9%N F32.zero)
  = (CheckFailed, [call_is_valid false]) /\
  fst (run (DecompressCurve Examples.acl_rejecting AnimSeq 9%N F32.zero))
  <> Returned F32.zero.
Proof.
  simpl. split; [|split].
  - intros H. apply list_elem_of_singleton in H. discriminate H.
  - reflexivity.
  - discriminate.
Qed.

(** C5, amended.  For every time and curve identity, [DecompressCurve]
    returns exactly 0.0 when the identity list is empty, whatever the blob,
    and when the identity does not appear in a non-empty list and the blob
    passes the lightweight validity check; with a non-empty list and a blob
    that fails the check it dies on the assertion. *)
Theorem DecompressCurve_missing (acl : acl_library)
    (AnimSeq : FCompressedAnimSequence) (CurveUID : UID_Type)
    (CurrentTime : float) :
  (CompressedCurveNames AnimSeq = [] ->
     fst (run (DecompressCurve acl AnimSeq CurveUID CurrentTime))
     = Returned F32.zero) /\
  (CurveUID ∉ (UID <$> CompressedCurveNames AnimSeq) ->
   ErrorResult_empty (is_valid acl (CompressedCurveByteStream AnimSeq) false) = true ->
     fst (run (DecompressCurve acl AnimSeq CurveUID CurrentTime))
     = Returned F32.zero) /\
  (CompressedCurveNames AnimSeq <> [] ->
   ErrorResult_empty (is_valid acl (CompressedCurveByteStream AnimSeq) false) = false ->
     fst (run (DecompressCurve acl AnimSeq CurveUID CurrentTime))
     = CheckFailed).
Proof.
  unfold run, DecompressCurve.
  destruct (CompressedCurveNames AnimSeq) as [|Head rest] eqn:Hnames.
  - repeat split; intros; try reflexivity. congruence.
  - change ((length (Head :: rest) =? 0)%nat) with false. cbv iota.
    unfold mbind, exec_bind, emit, check, initialize, seek. simpl.
    split; [discriminate|]. split.
    + intros Hnot Hvalid. rewrite Hvalid. simpl.
      pose proof (DecompressCurve_scan_absent (Head :: rest) 0 CurveUID Hnot) as Hs.
      simpl in Hs. rewrite Hs. reflexivity.
    + intros _ Hvalid. rewrite Hvalid. reflexivity.
Qed.

Lemma DecompressCurve_missing_witness :
  let AnimSeq :=
    {| CompressedCurveNames := [{| DisplayName := "Smile"; UID := 7%N |}];
       CompressedCurveByteStream := [] |} in
  fst (run (DecompressCurve Examples.acl_accepting AnimSeq 9%N F32.one))
  = Returned F32.zero /\
  fst (run (DecompressCurve Examples.acl_rejecting AnimSeq 9%N F32.one))
  = CheckFailed.
Proof.
  split.
  - refine (proj1 (proj2 (DecompressCurve_missing Examples.acl_accepting _ 9%N
                            F32.one)) _ _).
    + simpl. intros H. apply list_elem_of_singleton in H. discriminate H.
    + reflexivity.
  - refine (proj2 (proj2 (DecompressCurve_missing Examples.acl_rejecting _ 9%N
                            F32.one)) _ _).
    + simpl. discriminate.
    + reflexivity.
Defined.

(** C10. When the identity list holds the requested identity at several
    indices and the blob passes the validity check, [DecompressCurve] reads
    the track at the smallest such index, and only that track, and returns
    its value. *)
Theorem DecompressCurve_first_match (acl : acl_library)
    (AnimSeq : FCompressedAnimSequence) (CurveUID : UID_Type)
    (CurrentTime : float) (i : nat) (CurveName : FSmartName) :
  ErrorResult_empty (is_valid acl (CompressedCurveByteStream AnimSeq) false) = true ->
  CompressedCurveNames AnimSeq !! i = Some CurveName ->
  UID CurveName = CurveUID ->
  (forall (j : nat) (Other : FSmartName),
     (j < i)%nat -> CompressedCurveNames AnimSeq !! j = Some Other ->
     UID Other <> CurveUID) ->
  run (DecompressCurve acl AnimSeq CurveUID CurrentTime)
  = (Returned (sample acl (CompressedCurveByteStream AnimSeq) CurrentTime
                 SampleRoundingPolicy_None i),
     [call_is_valid false; call_initialize;
      call_seek CurrentTime SampleRoundingPolicy_None;
      call_decompress_track i]).
Proof.
  intros Hvalid Hlook Huid Hfirst.
  pose proof (DecompressCurve_scan_first _ 0 _ _ _ Hlook Huid Hfirst) as Hscan.
  rewrite Z.add_0_l in Hscan.
  unfold run, DecompressCurve.
  destruct (CompressedCurveNames AnimSeq) as [|Head rest] eqn:Hnames;
    [discriminate Hlook|].
  change ((length (Head :: rest) =? 0)%nat) with false. cbv iota.
  unfold mbind, exec_bind, emit, check, initialize, seek. simpl.
  rewrite Hvalid. simpl. simpl in Hscan. rewrite Hscan.
  destruct (Z.ltb_spec (Z.of_nat i) 0) as [Hneg|_]; [lia|].
  unfold decompress_track, read_track, write_float1,
    UE4ScalarCurveWriter_writer, mbind, exec_bind, emit, mret, exec_ret.
  simpl. rewrite Nat2Z.id. reflexivity.
Qed.

Lemma DecompressCurve_first_match_witness :
  let AnimSeq :=
    {| CompressedCurveNames :=
         [{| DisplayName := "Speed"; UID := 9%N |};
          {| DisplayName := "Smile"; UID := 7%N |};
          {| DisplayName := "Grin"; UID := 7%N |}];
       CompressedCurveByteStream := [] |} in
  fst (run (DecompressCurve Examples.acl_accepting AnimSeq 7%N F32.zero))
  = Returned F32.one.
Proof.
  intros AnimSeq.
  rewrite (DecompressCurve_first_match Examples.acl_accepting AnimSeq 7%N
             F32.zero 1 {| DisplayName := "Smile"; UID := 7%N |}).
  - reflexivity.
  - reflexivity.
  - reflexivity.
  - reflexivity.
  - intros j Other Hj Hother. destruct j as [|j]; [|lia].
    simpl in Hother. injection Hother as <-. discriminate.
Defined.

(** ** The loop of [decompress_tracks] *)

Lemma for_rangeM_invariant {S : Type} (P : S -> list call -> Prop)
    (Q : list call -> Prop) (body : nat -> S -> exec S) (last : nat) :
  (forall i s tr, (i < last)%nat -> P s tr ->
     match body i s tr with
     | (Returned s', tr') => P s' tr'
     | (CheckFailed, tr') => Q tr'
     end) ->
  forall count first s tr, (first + count <= last)%nat -> P s tr ->
    match for_rangeM first count body s tr with
    | (Returned s', tr') => P s' tr'
    | (CheckFailed, tr') => Q tr'
    end.
Proof.
  intros Hstep. induction count as [|count IH]; intros first s tr Hlast HP.
  - exact HP.
  - simpl. unfold mbind, exec_bind.
    specialize (Hstep first s tr ltac:(lia) HP).
    destruct (body first s tr) as [[s'|] tr'].
    + apply IH; [lia|exact Hstep].
    + exact Hstep.
Qed.

Section WriterInvariant.

Variable acl : acl_library.
Variable Names : list FSmartName.
Variable Curves : gmap UID_Type FCurveElement.

Lemma IsEnabled_Set_ (C : gmap UID_Type FCurveElement) (uid uid' : UID_Type)
    (value : float) :
  IsEnabled C uid = true ->
  IsEnabled (Set_ C uid value) uid' = IsEnabled C uid'.
Proof.
  unfold IsEnabled, Set_. intros Hen.
  destruct (C !! uid) as [Element|] eqn:Hlook; [|discriminate Hen].
  destruct (decide (uid = uid')) as [<-|Hne].
  - rewrite lookup_insert_eq, Hlook. simpl. symmetry. exact Hen.
  - rewrite lookup_insert_ne by exact Hne. reflexivity.
Qed.

Lemma lookup_Set__ne (C : gmap UID_Type FCurveElement) (uid uid' : UID_Type)
    (value : float) :
  uid <> uid' -> Set_ C uid value !! uid' = C !! uid'.
Proof.
  unfold Set_. intros Hne. destruct (C !! uid); [|reflexivity].
  apply lookup_insert_ne, Hne.
Qed.

Lemma write_float1_invariant (prefix : list call) (num_tracks : nat)
    (Context : decompression_context) (sought : float * SampleRoundingPolicy)
    (TrackIndex : nat) (Writer : UE4CurveWriter) (tr : list call) :
  ctx_seek Context = Some sought ->
  (TrackIndex < num_tracks)%nat ->
  writer_invariant Names Curves prefix Writer tr ->
  match (value ← read_track acl Context TrackIndex;
         write_float1 Writer TrackIndex value) tr with
  | (Returned Writer', tr') => writer_invariant Names Curves prefix Writer' tr'
  | (CheckFailed, tr') => writer_failure Names Curves prefix num_tracks tr'
  end.
Proof.
  intros Hseek Hindex (Hnames & Hen & Hframe & writes & Htr & Hwrites).
  unfold read_track. rewrite Hseek. destruct sought as [sample_time policy].
  unfold mbind, exec_bind, mret, exec_ret, write_float1, UE4CurveWriter_writer.
  rewrite Hnames.
  destruct (Names !! TrackIndex) as [CurveName|] eqn:Hlook.
  - assert (Hin : UID CurveName ∈ (UID <$> Names)).
    { apply list_elem_of_fmap. exists CurveName. split; [reflexivity|].
      eapply list_elem_of_lookup_2, Hlook. }
    destruct (IsEnabled (Writer_Curves Writer) (UID CurveName)) eqn:Henabled.
    + unfold mbind, exec_bind, emit. simpl.
      assert (Hen0 : IsEnabled Curves (UID CurveName) = true)
        by (rewrite <- Hen; exact Henabled).
      split; [reflexivity|]. split; [|split].
      * intros uid. simpl. rewrite IsEnabled_Set_ by exact Henabled. apply Hen.
      * intros uid Huid. simpl. rewrite lookup_Set__ne; [apply Hframe, Huid|].
        intros Heq. subst uid. destruct Huid as [Hoff|Hnot]; [congruence|].
        apply Hnot, Hin.
      * exists (writes ++ [call_Curves_Set (UID CurveName)
                           (sample acl (ctx_tracks Context) sample_time policy
                              TrackIndex)]).
        split; [rewrite Htr, app_assoc; reflexivity|].
        apply Forall_app. split; [exact Hwrites|].
        apply Forall_singleton. exists (UID CurveName). eexists.
        split; [reflexivity|]. split; [exact Hen0|exact Hin].
    + repeat split; try assumption. exists writes. split; assumption.
  - unfold mbind, exec_bind, check. simpl. split.
    + apply lookup_ge_None in Hlook. lia.
    + exists writes. split; assumption.
Qed.

Lemma decompress_tracks_invariant (prefix : list call)
    (Context : decompression_context) (sought : float * SampleRoundingPolicy) :
  ctx_seek Context = Some sought ->
  match decompress_tracks acl Context
          {| Writer_CompressedCurveNames := Names; Writer_Curves := Curves |}
          prefix with
  | (Returned Writer', tr') =>
      writer_invariant Names Curves (prefix ++ [call_decompress_tracks]) Writer' tr'
  | (CheckFailed, tr') =>
      writer_failure Names Curves (prefix ++ [call_decompress_tracks])
        (get_num_tracks acl (ctx_tracks Context)) tr'
  end.
Proof.
  intros Hseek. unfold decompress_tracks.
  unfold mbind at 1. unfold exec_bind at 1. unfold emit at 1.
  apply (for_rangeM_invariant
           (writer_invariant Names Curves (prefix ++ [call_decompress_tracks]))
           (writer_failure Names Curves (prefix ++ [call_decompress_tracks])
              (get_num_tracks acl (ctx_tracks Context)))
           _ (get_num_tracks acl (ctx_tracks Context))).
  - intros i s tr Hi HP.
    apply (write_float1_invariant _ _ Context sought); assumption.
  - lia.
  - repeat split; try reflexivity.
    exists []. split; [rewrite app_nil_r; reflexivity|constructor].
Qed.

End WriterInvariant.

(** ** The claims about decompression into the curve buffer *)


(** The three ways a run of [DecompressCurves] can go. *)
Lemma DecompressCurves_run (acl : acl_library) (AnimSeq : FCompressedAnimSequence)
    (Curves : gmap UID_Type FCurveElement) (CurrentTime : float) :
  let Names := CompressedCurveNames AnimSeq in
  let Bytes := CompressedCurveByteStream AnimSeq in
  (Names = [] /\
   run (DecompressCurves acl AnimSeq Curves CurrentTime) = (Returned Curves, []))
  \/
  (Names <> [] /\ ErrorResult_empty (is_valid acl Bytes false) = false /\
   run (DecompressCurves acl AnimSeq Curves CurrentTime)
   = (CheckFailed, [call_is_valid false]))
  \/
  (Names <> [] /\ ErrorResult_empty (is_valid acl Bytes false) = true /\
   match run (DecompressCurves acl AnimSeq Curves CurrentTime) with
   | (Returned Curves', tr) =>
       exists Writer,
         Curves' = Writer_Curves Writer /\
         writer_invariant Names Curves (decompression_prefix CurrentTime) Writer tr
   | (CheckFailed, tr) =>
       writer_failure Names Curves (decompression_prefix CurrentTime)
         (get_num_tracks acl Bytes) tr
   end).
Proof.
  intros Names Bytes. unfold run, DecompressCurves. fold Names Bytes.
  destruct Names as [|Head rest] eqn:HNames.
  - left. split; reflexivity.
  - right. change ((length (Head :: rest) =? 0)%nat) with false. cbv iota.
    unfold mbind at 1 2. unfold exec_bind at 1 2. unfold emit, check. simpl.
    destruct (ErrorResult_empty (is_valid acl Bytes false)) eqn:Hvalid.
    + right. split; [discriminate|]. split; [reflexivity|].
      unfold mbind at 1 2. unfold exec_bind at 1 2.
      unfold initialize, seek, mbind at 1 2, exec_bind at 1 2, emit. simpl.
      unfold mbind, exec_bind.
      pose proof (decompress_tracks_invariant acl (Head :: rest) Curves
                    [call_is_valid false; call_initialize;
                     call_seek CurrentTime SampleRoundingPolicy_None]
                    {| ctx_tracks := Bytes;
                       ctx_seek := Some (CurrentTime, SampleRoundingPolicy_None) |}
                    (CurrentTime, SampleRoundingPolicy_None) eq_refl) as Hloop.
      simpl in Hloop.
      destruct (decompress_tracks acl _ _ _) as [[Writer'|] tr'].
      * exists Writer'. split; [reflexivity|exact Hloop].
      * exact Hloop.
    + left. split; [discriminate|]. split; reflexivity.
Qed.

(** C7. During the decompression of all curves, an entry of the caller's
    curve buffer is written only for an identity that is one of the track
    identities and was already enabled in the buffer; every entry whose
    identity is not enabled, or is not in the track identity list, is left
    as it was.  A run that does not return died on a malformed blob or on a
    blob with more tracks than identities. *)
Theorem DecompressCurves_writes_enabled_only (acl : acl_library)
    (AnimSeq : FCompressedAnimSequence) (Curves : gmap UID_Type FCurveElement)
    (CurrentTime : float) :
  (forall uid value,
     call_Curves_Set uid value
       ∈ snd (run (DecompressCurves acl AnimSeq Curves CurrentTime)) ->
     IsEnabled Curves uid = true /\
     uid ∈ (UID <$> CompressedCurveNames AnimSeq)) /\
  (forall Curves',
     fst (run (DecompressCurves acl AnimSeq Curves CurrentTime)) = Returned Curves' ->
     forall uid,
       IsEnabled Curves uid = false \/
       uid ∉ (UID <$> CompressedCurveNames AnimSeq) ->
       Curves' !! uid = Curves !! uid) /\
  (fst (run (DecompressCurves acl AnimSeq Curves CurrentTime)) = CheckFailed ->
     ErrorResult_empty (is_valid acl (CompressedCurveByteStream AnimSeq) false)
     = false \/
     (length (CompressedCurveNames AnimSeq)
      < get_num_tracks acl (CompressedCurveByteStream AnimSeq))%nat).
Proof.
  assert (Hwrites : forall prefix writes uid value,
            prefix = decompression_prefix CurrentTime ->
            Forall (allowed_write (CompressedCurveNames AnimSeq) Curves) writes ->
            call_Curves_Set uid value ∈ prefix ++ writes ->
            IsEnabled Curves uid = true /\
            uid ∈ (UID <$> CompressedCurveNames AnimSeq)).
  { intros prefix writes uid value -> Hall Hin.
    apply elem_of_app in Hin as [Hin|Hin].
    - unfold decompression_prefix in Hin.
      repeat (apply elem_of_cons in Hin as [Hin|Hin]; [discriminate Hin|]).
      apply elem_of_nil in Hin. contradiction.
    - rewrite Forall_forall in Hall. destruct (Hall _ Hin) as (u & v & Heq & Hen & Hu).
      injection Heq as -> ->. split; assumption. }
  destruct (DecompressCurves_run acl AnimSeq Curves CurrentTime)
    as [[Hempty Hrun]|[(Hne & Hvalid & Hrun)|(Hne & Hvalid & Hrun)]].
  - rewrite Hrun. simpl. split; [|split].
    + intros uid value Hin. apply elem_of_nil in Hin. contradiction.
    + intros Curves' Heq uid _. congruence.
    + discriminate.
  - rewrite Hrun. simpl. split; [|split].
    + intros uid value Hin. apply list_elem_of_singleton in Hin. discriminate Hin.
    + discriminate.
    + intros _. left. exact Hvalid.
  - destruct (run (DecompressCurves acl AnimSeq Curves CurrentTime))
      as [[Curves''|] tr]; simpl.
    + destruct Hrun as (Writer & -> & _ & _ & Hframe & writes & -> & Hall).
      split; [|split].
      * intros uid value. apply Hwrites; [reflexivity|exact Hall].
      * intros Curves' Heq uid Huid. injection Heq as <-. apply Hframe, Huid.
      * discriminate.
    + destruct Hrun as (Hshort & writes & -> & Hall). split; [|split].
      * intros uid value. apply Hwrites; [reflexivity|exact Hall].
      * discriminate.
      * intros _. right. exact Hshort.
Qed.


Lemma DecompressCurves_writes_enabled_only_witness :
  exists Curves',
    fst (run (DecompressCurves Examples.acl_accepting BufferExample.blob
                BufferExample.buffer F32.zero)) = Returned Curves' /\
    Curves' !! 7%N = Some {| Value := F32.zero; bValid := true |} /\
    Curves' !! 9%N = BufferExample.buffer !! 9%N.
Proof.
  pose (Curves' :=
          match fst (run (DecompressCurves Examples.acl_accepting
                            BufferExample.blob BufferExample.buffer F32.zero)) with
          | Returned C => C
          | CheckFailed => BufferExample.buffer
          end).
  assert (Hrun : fst (run (DecompressCurves Examples.acl_accepting
                             BufferExample.blob BufferExample.buffer F32.zero))
                 = Returned Curves') by (vm_compute; reflexivity).
  exists Curves'. split; [exact Hrun|]. split.
  - vm_compute. reflexivity.
  - apply (proj1 (proj2 (DecompressCurves_writes_enabled_only
                           Examples.acl_accepting BufferExample.blob
                           BufferExample.buffer F32.zero)) Curves' Hrun 9%N).
    left. reflexivity.
Defined.


Lemma validated_first_reads (valid : bool) (tr pre post : list call) (c : call) :
  validated_first valid tr ->
  tr = pre ++ c :: post -> reads_blob c = true ->
  call_is_valid false ∈ pre /\ valid = true /\ call_is_valid true ∉ tr.
Proof.
  intros [->|(rest & -> & Hvalid & Hdeep)] Hsplit Hreads.
  - destruct pre; discriminate Hsplit.
  - destruct pre as [|p pre].
    + simpl in Hsplit. injection Hsplit as <- _. discriminate Hreads.
    + simpl in Hsplit. injection Hsplit as <- ->. split; [|split].
      * apply elem_of_cons. left. reflexivity.
      * apply Hvalid. destruct pre; discriminate.
      * intros Hin. apply elem_of_cons in Hin as [Hin|Hin];
          [discriminate Hin|exact (Hdeep Hin)].
Qed.

Lemma DecompressCurves_validated_first (acl : acl_library)
    (AnimSeq : FCompressedAnimSequence) (Curves : gmap UID_Type FCurveElement)
    (CurrentTime : float) :
  validated_first
    (ErrorResult_empty (is_valid acl (CompressedCurveByteStream AnimSeq) false))
    (snd (run (DecompressCurves acl AnimSeq Curves CurrentTime))).
Proof.
  assert (Hshape : forall writes,
            Forall (allowed_write (CompressedCurveNames AnimSeq) Curves) writes ->
            call_is_valid true ∉
              [call_initialize; call_seek CurrentTime SampleRoundingPolicy_None;
               call_decompress_tracks] ++ writes).
  { intros writes Hall Hin. apply elem_of_app in Hin as [Hin|Hin].
    - repeat (apply elem_of_cons in Hin as [Hin|Hin]; [discriminate Hin|]).
      apply elem_of_nil in Hin. contradiction.
    - rewrite Forall_forall in Hall.
      destruct (Hall _ Hin) as (u & v & Heq & _). discriminate Heq. }
  destruct (DecompressCurves_run acl AnimSeq Curves CurrentTime)
    as [[Hempty Hrun]|[(Hne & Hvalid & Hrun)|(Hne & Hvalid & Hrun)]].
  - rewrite Hrun. left. reflexivity.
  - rewrite Hrun. right. exists []. split; [reflexivity|]. split; [congruence|].
    apply not_elem_of_nil.
  - right. rewrite Hvalid.
    destruct (run (DecompressCurves acl AnimSeq Curves CurrentTime))
      as [[Curves''|] tr]; simpl.
    + destruct Hrun as (Writer & _ & _ & _ & _ & writes & -> & Hall).
      eexists. split; [reflexivity|]. split; [reflexivity|]. apply Hshape, Hall.
    + destruct Hrun as (_ & writes & -> & Hall).
      eexists. split; [reflexivity|]. split; [reflexivity|]. apply Hshape, Hall.
Qed.

Lemma DecompressCurve_validated_first (acl : acl_library)
    (AnimSeq : FCompressedAnimSequence) (CurveUID : UID_Type)
    (CurrentTime : float) :
  validated_first
    (ErrorResult_empty (is_valid acl (CompressedCurveByteStream AnimSeq) false))
    (snd (run (DecompressCurve acl AnimSeq CurveUID CurrentTime))).
Proof.
  unfold run, DecompressCurve.
  destruct (CompressedCurveNames AnimSeq) as [|Head rest].
  - left. reflexivity.
  - change ((length (Head :: rest) =? 0)%nat) with false. cbv iota.
    unfold mbind, exec_bind, emit, check, initialize, seek. simpl.
    destruct (ErrorResult_empty
                (is_valid acl (CompressedCurveByteStream AnimSeq) false)).
    + simpl.
      destruct (if (UID Head =? CurveUID)%N then 0
                else DecompressCurve_scan rest (0 + 1) CurveUID) as [|p|p];
        simpl; right; eexists; (split; [reflexivity|]);
        (split; [reflexivity|]); intros Hin;
        repeat (apply elem_of_cons in Hin as [Hin|Hin]; [discriminate Hin|]);
        apply elem_of_nil in Hin; contradiction.
    + right. exists []. split; [reflexivity|]. split; [congruence|].
      apply not_elem_of_nil.
Qed.

(** C8. Both decompression entry points validate the blob (the lightweight
    check, never the deep one) before they position the cursor and before any
    track value is read out: in every run, whatever the blob, the identity
    list and the time, a seek, a read or a write to the curve buffer is
    preceded by the validity check, and that check has passed. *)
Theorem Decompress_validates_first (acl : acl_library)
    (AnimSeq : FCompressedAnimSequence) (Curves : gmap UID_Type FCurveElement)
    (CurveUID : UID_Type) (CurrentTime : float) (tr pre post : list call)
    (c : call) :
  tr = snd (run (DecompressCurves acl AnimSeq Curves CurrentTime)) \/
  tr = snd (run (DecompressCurve acl AnimSeq CurveUID CurrentTime)) ->
  tr = pre ++ c :: post ->
  reads_blob c = true ->
  call_is_valid false ∈ pre /\
  ErrorResult_empty (is_valid acl (CompressedCurveByteStream AnimSeq) false) = true /\
  call_is_valid true ∉ tr.
Proof.
  intros Hrun Hsplit Hreads.
  eapply validated_first_reads; [|exact Hsplit|exact Hreads].
  destruct Hrun as [-> | ->].
  - apply DecompressCurves_validated_first.
  - apply DecompressCurve_validated_first.
Qed.

Lemma Decompress_validates_first_witness :
  call_is_valid false ∈ [call_is_valid false; call_initialize] /\
  call_is_valid false ∈ [call_is_valid false; call_initialize].
Proof.
  split.
  - refine (proj1 (Decompress_validates_first Examples.acl_accepting
              BufferExample.blob BufferExample.buffer 9%N F32.zero
              _ [call_is_valid false; call_initialize]
              [call_decompress_tracks; call_Curves_Set 7%N F32.zero]
              (call_seek F32.zero SampleRoundingPolicy_None) _ _ _)).
    + left. reflexivity.
    + vm_compute. reflexivity.
    + reflexivity.
  - refine (proj1 (Decompress_validates_first Examples.acl_accepting
              BufferExample.blob BufferExample.buffer 9%N F32.zero
              _ [call_is_valid false; call_initialize]
              [call_decompress_track 1]
              (call_seek F32.zero SampleRoundingPolicy_None) _ _ _)).
    + right. reflexivity.
    + vm_compute. reflexivity.
    + reflexivity.
Defined.

(** ** Rounding: the quotient of binary32 numbers *)

Section RoundingFacts.

Import Rounding.
Local Open Scope R_scope.

Lemma bpow_gt_0 e : 0 < bpow e.
Proof. apply powerRZ_lt. lra. Qed.

Lemma bpow_add e1 e2 : bpow (e1 + e2) = bpow e1 * bpow e2.
Proof. apply powerRZ_add. lra. Qed.

Lemma bpow_succ e : bpow (e + 1) = 2 * bpow e.
Proof. rewrite bpow_add. unfold bpow at 2. simpl. lra. Qed.

Lemma bpow_IZR (n : Z) : (0 <= n)%Z -> bpow n = IZR (2 ^ n).
Proof.
  intros Hn. pattern n. apply natlike_ind; [reflexivity| |exact Hn].
  intros k Hk IH. unfold Z.succ. rewrite bpow_succ, IH.
  rewrite Z.pow_add_r by lia. rewrite mult_IZR. simpl (2 ^ 1)%Z. lra.
Qed.

Lemma bpow_le e1 e2 : (e1 <= e2)%Z -> bpow e1 <= bpow e2.
Proof.
  intros H. replace e2 with (e1 + (e2 - e1))%Z by lia.
  rewrite bpow_add, (bpow_IZR (e2 - e1)) by lia.
  assert (1 <= IZR (2 ^ (e2 - e1))).
  { apply IZR_le. assert (0 < 2 ^ (e2 - e1))%Z by (apply Z.pow_pos_nonneg; lia). lia. }
  pose proof (bpow_gt_0 e1). nra.
Qed.

Lemma bpow_lt e1 e2 : (e1 < e2)%Z -> bpow e1 < bpow e2.
Proof.
  intros H. apply Rlt_le_trans with (bpow (e1 + 1)).
  - rewrite bpow_succ. pose proof (bpow_gt_0 e1). lra.
  - apply bpow_le. lia.
Qed.

Lemma shr_1_represents (mrs : shr_record) (e : Z) (v : R) :
  (0 <= shr_m mrs)%Z -> represents_record mrs e v ->
  represents_record (shr_1 mrs) (e + 1) v /\ (0 <= shr_m (shr_1 mrs))%Z.
Proof.
  destruct mrs as [m r s]. unfold represents_record, represents. simpl shr_m.
  intros Hm. pose proof (bpow_gt_0 e) as HB.
  destruct m as [|p|p]; [| |lia].
  - destruct r, s; simpl; unfold F2R; rewrite ?bpow_succ, ?plus_IZR;
      intros H; (split; [|lia]); lra.
  - destruct p as [p|p|]; destruct r, s; simpl; unfold F2R; rewrite ?bpow_succ;
      rewrite ?plus_IZR;
      try change (IZR (Z.pos p~1)) with (IZR (2 * Z.pos p + 1));
      try change (IZR (Z.pos p~0)) with (IZR (2 * Z.pos p));
      rewrite ?plus_IZR, ?mult_IZR; simpl IZR;
      intros H; (split; [|lia]); nra.
Qed.

Lemma iter_pos_shr_1_represents (p : positive) :
  forall (mrs : shr_record) (e : Z) (v : R),
    (0 <= shr_m mrs)%Z -> represents_record mrs e v ->
    represents_record (SpecFloat.iter_pos shr_1 p mrs) (e + Z.pos p) v /\
    (0 <= shr_m (SpecFloat.iter_pos shr_1 p mrs))%Z.
Proof.
  induction p as [p IH|p IH|]; intros mrs e v Hm Hv; simpl.
  - destruct (shr_1_represents mrs e v Hm Hv) as [H1 Hm1].
    destruct (IH _ _ _ Hm1 H1) as [H2 Hm2].
    destruct (IH _ _ _ Hm2 H2) as [H3 Hm3].
    split; [|exact Hm3].
    replace (e + Z.pos p~1)%Z with (e + 1 + Z.pos p + Z.pos p)%Z by lia.
    exact H3.
  - destruct (IH _ _ _ Hm Hv) as [H2 Hm2].
    destruct (IH _ _ _ Hm2 H2) as [H3 Hm3].
    split; [|exact Hm3].
    replace (e + Z.pos p~0)%Z with (e + Z.pos p + Z.pos p)%Z by lia.
    exact H3.
  - apply shr_1_represents; assumption.
Qed.

Lemma shr_represents (mrs : shr_record) (e n : Z) (v : R) :
  (0 <= shr_m mrs)%Z -> represents_record mrs e v ->
  represents_record (fst (shr mrs e n)) (snd (shr mrs e n)) v /\
  (0 <= shr_m (fst (shr mrs e n)))%Z /\
  snd (shr mrs e n) = (e + Z.max n 0)%Z.
Proof.
  intros Hm Hv. destruct n as [|p|p]; simpl.
  - split; [exact Hv|]. split; [exact Hm|lia].
  - destruct (iter_pos_shr_1_represents p mrs e v Hm Hv) as [H1 H2].
    split; [exact H1|]. split; [exact H2|lia].
  - split; [exact Hv|]. split; [exact Hm|lia].
Qed.

Lemma shr_record_of_loc_represents (m e : Z) (l : location) (v : R) :
  represents m e l v -> represents_record (shr_record_of_loc m l) e v.
Proof.
  unfold represents_record. destruct l as [|[]]; simpl; auto.
Qed.

Lemma represents_bounds (m e : Z) (l : location) (v : R) :
  represents m e l v -> F2R m e <= v < F2R (m + 1) e.
Proof.
  pose proof (bpow_gt_0 e) as HB.
  destruct l as [|c]; simpl; unfold F2R; rewrite plus_IZR.
  - intros ->. lra.
  - rewrite ?plus_IZR. intros [H _]. lra.
Qed.

Lemma F2R_lt_reg (m1 m2 e : Z) : F2R m1 e < F2R m2 e -> (m1 < m2)%Z.
Proof.
  unfold F2R. intros H. apply lt_IZR. pose proof (bpow_gt_0 e). nra.
Qed.

Lemma F2R_le_reg (m1 m2 e : Z) : F2R m1 e <= F2R m2 e -> (m1 <= m2)%Z.
Proof.
  unfold F2R. intros H. apply le_IZR. pose proof (bpow_gt_0 e). nra.
Qed.

Lemma F2R_bpow (n e : Z) : (0 <= n)%Z -> F2R (2 ^ n) e = bpow (n + e).
Proof. intros Hn. unfold F2R. rewrite bpow_add, (bpow_IZR n) by exact Hn. reflexivity. Qed.

Lemma scale_bounds (m E : Z) (l : location) (v : R) :
  represents m E l v -> scale_ok v E -> 0 <= v ->
  (-149 <= E /\ 0 <= m < 2 ^ 24 /\ (-149 < E -> 2 ^ 23 <= m))%Z.
Proof.
  intros Hrep Hscale Hv. apply represents_bounds in Hrep.
  assert (H0 : (0 <= m)%Z).
  { assert (H : F2R 0 E < F2R (m + 1) E)
      by (unfold F2R at 1; rewrite Rmult_0_l; lra).
    apply F2R_lt_reg in H. lia. }
  assert (Hup : v < bpow (E + 24)).
  { destruct Hscale as [[-> H]|[_ H]]; [exact H|lra]. }
  assert (H1 : (m < 2 ^ 24)%Z).
  { apply (F2R_lt_reg _ _ E). rewrite F2R_bpow by lia.
    replace (24 + E)%Z with (E + 24)%Z by lia. lra. }
  split; [destruct Hscale as [[-> _]|[H _]]; lia|]. split; [lia|].
  intros HE. destruct Hscale as [[-> _]|[_ H]]; [lia|].
  assert (F2R (2 ^ 23) E < F2R (m + 1) E).
  { rewrite F2R_bpow by lia. replace (23 + E)%Z with (E + 23)%Z by lia. lra. }
  apply F2R_lt_reg in H2. lia.
Qed.

Lemma scale_ok_le (v1 v2 : R) (E1 E2 : Z) :
  scale_ok v1 E1 -> scale_ok v2 E2 -> v1 <= v2 -> (E1 <= E2)%Z.
Proof.
  intros H1 H2 Hle.
  destruct (Z_le_gt_dec E1 E2) as [H|H]; [exact H|exfalso].
  destruct H1 as [[-> _]|[HE1 [Hlow _]]].
  - destruct H2 as [[-> _]|[HE2 _]]; lia.
  - assert (Hup : v2 < bpow (E2 + 24)).
    { destruct H2 as [[-> H2]|[_ H2]]; [exact H2|lra]. }
    pose proof (bpow_le (E2 + 24) (E1 + 23) ltac:(lia)). lra.
Qed.

Lemma round_nearest_even_bounds (m : Z) (l : location) :
  (m <= round_nearest_even m l <= m + 1)%Z.
Proof. destruct l as [|[]]; simpl; try destruct (Z.even m); lia. Qed.

Lemma rank_monotone (m1 E1 : Z) (l1 : location) (v1 : R)
    (m2 E2 : Z) (l2 : location) (v2 : R) :
  represents m1 E1 l1 v1 -> scale_ok v1 E1 ->
  represents m2 E2 l2 v2 -> scale_ok v2 E2 ->
  0 <= v1 -> v1 <= v2 ->
  (rank E1 (round_nearest_even m1 l1) <= rank E2 (round_nearest_even m2 l2))%Z.
Proof.
  intros Hr1 Hs1 Hr2 Hs2 H0 Hle.
  pose proof (scale_ok_le _ _ _ _ Hs1 Hs2 Hle) as HE.
  pose proof (scale_bounds _ _ _ _ Hr1 Hs1 H0) as (Ha1 & Hb1 & Hc1).
  pose proof (scale_bounds _ _ _ _ Hr2 Hs2 ltac:(lra)) as (Ha2 & Hb2 & Hc2).
  pose proof (round_nearest_even_bounds m1 l1) as Hn1.
  pose proof (round_nearest_even_bounds m2 l2) as Hn2.
  unfold rank.
  destruct (Z.eq_dec E1 E2) as [<-|Hne].
  - assert (Hm : (m1 <= m2)%Z).
    { pose proof (represents_bounds _ _ _ _ Hr1) as B1.
      pose proof (represents_bounds _ _ _ _ Hr2) as B2.
      assert (H : F2R m1 E1 < F2R (m2 + 1) E1) by lra.
      apply F2R_lt_reg in H. lia. }
    destruct (Z.eq_dec m1 m2) as [<-|Hlt]; [|lia].
    cut (round_nearest_even m1 l1 <= round_nearest_even m1 l2)%Z; [lia|].
    pose proof (bpow_gt_0 E1) as HB.
    destruct l1 as [|[]], l2 as [|[]]; simpl in Hr1, Hr2 |- *;
      unfold F2R in Hr1, Hr2; rewrite ?plus_IZR in Hr1, Hr2;
      try destruct (Z.even m1); first [lia | exfalso; lra].
  - specialize (Hc2 ltac:(lia)). lia.
Qed.

Lemma finish_ranked (E m : Z) :
  (-149 <= E /\ 0 <= m <= 16777216 /\ (-149 < E -> 8388608 <= m))%Z ->
  ranked (finish E m) (rank E m).
Proof.
  unfold finish, rank. intros (Ha & Hb & Hc).
  destruct m as [|p|p]; [simpl; lia| |lia].
  destruct (Z.ltb_spec (Z.pos p) 16777216) as [Hlt|Hge].
  - destruct (Z.leb_spec E 104) as [HE|HE]; simpl; unfold rank; lia.
  - destruct (Z.leb_spec (E + 1) 104) as [HE|HE]; simpl; unfold rank; lia.
Qed.

Lemma ranked_le (f1 f2 : spec_float) (r1 r2 : Z) :
  ranked f1 r1 -> ranked f2 r2 -> (r1 <= r2)%Z -> SFleb f1 f2 = true.
Proof.
  intros H1 H2 Hle.
  destruct f1 as [s1|s1| |s1 m1 e1]; try destruct s1; try contradiction;
    destruct f2 as [s2|s2| |s2 m2 e2]; try destruct s2; try contradiction;
    unfold ranked, rank in H1, H2; try reflexivity; try lia.
  unfold SFleb, SFcompare.
  change (Pos.compare_cont Eq m1 m2) with (Pos.compare m1 m2).
  destruct (Z.compare_spec e1 e2) as [Heq|Hlt|Hgt]; [|reflexivity|lia].
  destruct (Pos.compare_spec m1 m2); try reflexivity. lia.
Qed.

Lemma fexp_binary32 (z : Z) : fexp 24 128 z = Z.max (z - 24) (-149).
Proof. reflexivity. Qed.

Lemma digits2_pos_bounds (p : positive) :
  (2 ^ (Z.pos (digits2_pos p) - 1) <= Z.pos p < 2 ^ Z.pos (digits2_pos p))%Z.
Proof.
  induction p as [p IH|p IH|]; simpl digits2_pos.
  - rewrite Pos2Z.inj_succ.
    replace (Z.succ (Z.pos (digits2_pos p)) - 1)%Z
      with (Z.succ (Z.pos (digits2_pos p) - 1))%Z by lia.
    rewrite !Z.pow_succ_r by lia. lia.
  - rewrite Pos2Z.inj_succ.
    replace (Z.succ (Z.pos (digits2_pos p)) - 1)%Z
      with (Z.succ (Z.pos (digits2_pos p) - 1))%Z by lia.
    rewrite !Z.pow_succ_r by lia. lia.
  - simpl. lia.
Qed.

Lemma SFdiv_core_represents (mx : positive) (ex : Z) (my : positive) (ey : Z) :
  let '(q, e', l) := SFdiv_core_binary 24 128 (Z.pos mx) ex (Z.pos my) ey in
  represents q e' l (F2R (Z.pos mx) ex / F2R (Z.pos my) ey) /\
  (0 <= q)%Z /\ (e' <= -149 \/ 8388608 <= q)%Z.
Proof.
  unfold SFdiv_core_binary. simpl Zdigits2.
  set (d1 := Z.pos (digits2_pos mx)). set (d2 := Z.pos (digits2_pos my)).
  set (e' := Z.min (fexp 24 128 (d1 + ex - (d2 + ey))) (ex - ey)).
  set (s := (ex - ey - e')%Z).
  assert (Hs : (0 <= s)%Z) by (unfold s, e'; lia).
  set (m' := match s with
             | 0%Z => Z.pos mx
             | Z.pos _ => Z.shiftl (Z.pos mx) s
             | Z.neg _ => 0%Z
             end).
  assert (Hm' : m' = (Z.pos mx * 2 ^ s)%Z).
  { unfold m'. destruct s as [|p|p]; [simpl; lia| |lia].
    apply Z.shiftl_mul_pow2. lia. }
  clearbody m'.
  pose proof (Z_div_mod m' (Z.pos my) ltac:(lia)) as Hdiv.
  destruct (Z.div_eucl m' (Z.pos my)) as [q r]. destruct Hdiv as [Hq Hr].
  assert (Hpow : (0 < 2 ^ s)%Z) by (apply Z.pow_pos_nonneg; lia).
  assert (Hq0 : (0 <= q)%Z) by nia.
  split; [|split; [exact Hq0|]].
  - pose proof (bpow_gt_0 e') as HB. pose proof (bpow_gt_0 ey) as HBy.
    assert (HM : 0 < IZR (Z.pos my)) by (apply IZR_lt; lia).
    set (t := IZR r / IZR (Z.pos my)).
    assert (Ht : t * IZR (Z.pos my) = IZR r) by (unfold t; field; lra).
    assert (Hv : F2R (Z.pos mx) ex / F2R (Z.pos my) ey
                 = IZR q * bpow e' + t * bpow e').
    { unfold F2R. replace ex with (s + e' + ey)%Z by (unfold s; lia).
      rewrite !bpow_add, (bpow_IZR s) by exact Hs.
      assert (Heq : IZR (Z.pos mx) * IZR (2 ^ s)
                    = IZR (Z.pos my) * IZR q + IZR r).
      { rewrite <- !mult_IZR, <- plus_IZR. f_equal. lia. }
      apply (Rmult_eq_reg_r (IZR (Z.pos my) * bpow ey)); [|nra].
      transitivity (IZR (Z.pos mx) * IZR (2 ^ s) * bpow e' * bpow ey);
        [field; lra|].
      rewrite Heq, <- Ht. ring. }
    rewrite Hv. clear Hv.
    assert (Hr0 : 0 <= IZR r < IZR (Z.pos my)).
    { split; [apply IZR_le|apply IZR_lt]; lia. }
    assert (Ht1 : 0 <= t < 1) by (split; nra).
    assert (Hcmp : forall c, (2 * r ?= Z.pos my)%Z = c -> r <> 0%Z ->
              0 < t /\ cmp c t (1 / 2)).
    { intros c Hc Hnz.
      assert (0 < IZR r) by (apply IZR_lt; lia).
      split; [nra|].
      destruct (Z.compare_spec (2 * r) (Z.pos my)) as [H2|H2|H2]; subst c; simpl.
      - apply (f_equal IZR) in H2. rewrite mult_IZR in H2. nra.
      - apply IZR_lt in H2. rewrite mult_IZR in H2. nra.
      - apply IZR_lt in H2. rewrite mult_IZR in H2. nra. }
    assert (Hfin : forall c, 0 < t /\ cmp c t (1 / 2) ->
              represents q e' (loc_Inexact c) (IZR q * bpow e' + t * bpow e')).
    { intros c [Hpos Hc]. simpl. unfold F2R. rewrite plus_IZR.
      split; [split; nra|]. destruct c; simpl in Hc |- *; nra. }
    assert (Hzero : r = 0%Z ->
              represents q e' loc_Exact (IZR q * bpow e' + t * bpow e')).
    { intros ->. assert (t = 0) by (unfold t; field; lra).
      simpl; unfold F2R; nra. }
    unfold new_location.
    destruct (Z.even (Z.pos my)) eqn:Heven;
      unfold new_location_even, new_location_odd;
      (destruct (Z.eqb_spec r 0) as [Hz|Hnz]; [exact (Hzero Hz)|]).
    + apply Hfin, Hcmp; [reflexivity|exact Hnz].
    + apply Hfin.
      assert (Hodd : (2 * r <> Z.pos my)%Z).
      { intros Heq. rewrite <- Heq, Z.even_mul in Heven. discriminate Heven. }
      destruct (Z.compare_spec (2 * r + 1) (Z.pos my)) as [H2|H2|H2];
        apply Hcmp; try exact Hnz.
      * apply Z.compare_lt_iff. lia.
      * apply Z.compare_lt_iff. lia.
      * apply Z.compare_gt_iff. lia.
  - destruct (Z_le_gt_dec e' (-149)) as [Hlow|Hhigh]; [left; exact Hlow|right].
    pose proof (digits2_pos_bounds mx) as Hd1.
    pose proof (digits2_pos_bounds my) as Hd2.
    fold d1 in Hd1. fold d2 in Hd2.
    assert (Hs2 : (d2 + 24 <= d1 + s)%Z).
    { unfold s. revert Hhigh. unfold e'. rewrite fexp_binary32. lia. }
    assert (Hpd : (2 ^ (d2 + 23) <= 2 ^ (d1 - 1 + s))%Z).
    { apply Z.pow_le_mono_r; lia. }
    rewrite Z.pow_add_r in Hpd by (unfold d1, d2; lia).
    rewrite (Z.pow_add_r 2 (d1 - 1) s) in Hpd by (unfold d1; lia).
    change (2 ^ 23)%Z with 8388608%Z in Hpd.
    assert (0 < 2 ^ d2)%Z by (apply Z.pow_pos_nonneg; unfold d2; lia).
    nia.
Qed.

Lemma F2R_le (m1 m2 e : Z) : (m1 <= m2)%Z -> F2R m1 e <= F2R m2 e.
Proof.
  intros H. unfold F2R. apply IZR_le in H. pose proof (bpow_gt_0 e). nra.
Qed.

Lemma shr_nonpos (mrs : shr_record) (e n : Z) :
  (n <= 0)%Z -> shr mrs e n = (mrs, e).
Proof. destruct n; [reflexivity|lia|reflexivity]. Qed.

(** The second shift of [binary_round_aux], which absorbs the carry of the
    rounding, and the test for overflow. *)
Lemma round_finish (E m : Z) :
  (-149 <= E)%Z -> (0 <= m <= 16777216)%Z ->
  (let '(mrs, e) := shr_fexp 24 128 m E loc_Exact in
   match shr_m mrs with
   | 0%Z => S754_zero false
   | Z.pos p =>
       if (e <=? 128 - 24)%Z then S754_finite false p e else S754_infinity false
   | Z.neg _ => S754_nan
   end) = finish E m.
Proof.
  intros HE Hm. unfold shr_fexp, finish. simpl shr_record_of_loc.
  destruct m as [|p|p]; [| |lia].
  - rewrite shr_nonpos by (simpl Zdigits2; rewrite ?fexp_binary32; lia).
    reflexivity.
  - destruct (Z.ltb_spec (Z.pos p) 16777216) as [Hlt|Hge].
    + rewrite shr_nonpos; [reflexivity|].
      simpl Zdigits2. pose proof (digits2_pos_bounds p) as Hd.
      assert (Z.pos (digits2_pos p) <= 24)%Z.
      { destruct (Z_le_gt_dec (Z.pos (digits2_pos p)) 24) as [H|H]; [exact H|].
        assert (2 ^ 24 <= 2 ^ (Z.pos (digits2_pos p) - 1))%Z
          by (apply Z.pow_le_mono_r; lia).
        change (2 ^ 24)%Z with 16777216%Z in H0. lia. }
      rewrite ?fexp_binary32. lia.
    + assert (Hp : p = 16777216%positive) by lia. subst p.
      change (Zdigits2 16777216) with 25%Z.
      replace (fexp 24 128 (25 + E) - E)%Z with 1%Z
        by (rewrite ?fexp_binary32; lia).
      reflexivity.
Qed.

Lemma shr_m_of_loc (m : Z) (l : location) : shr_m (shr_record_of_loc m l) = m.
Proof. destruct l as [|[]]; reflexivity. Qed.

(** [binary_round_aux] on a positive value: the value is cut at the scale of
    its magnitude, rounded to nearest even, and finished. *)
Lemma binary_round_aux_finish (q e' : Z) (l : location) (v : R) :
  0 < v -> (0 <= q)%Z -> represents q e' l v ->
  (e' <= -149 \/ 8388608 <= q)%Z ->
  exists E m1 l1,
    represents m1 E l1 v /\ scale_ok v E /\
    binary_round_aux 24 128 false q e' l
    = finish E (round_nearest_even m1 l1).
Proof.
  intros Hv Hq Hrep Hbig.
  unfold binary_round_aux. unfold shr_fexp at 1.
  set (n := (fexp 24 128 (Zdigits2 q + e') - e')%Z).
  pose proof (shr_represents (shr_record_of_loc q l) e' n v) as Hshr.
  rewrite shr_m_of_loc in Hshr.
  specialize (Hshr Hq (shr_record_of_loc_represents _ _ _ _ Hrep)).
  destruct (shr (shr_record_of_loc q l) e' n) as [mrs E].
  simpl fst in Hshr. simpl snd in Hshr. destruct Hshr as (Hrep' & Hm0 & HE).
  pose proof (represents_bounds _ _ _ _ Hrep) as Hb.
  assert (Hscale : scale_ok v E).
  { destruct q as [|p|p]; [| |lia].
    - assert (He' : (e' <= -149)%Z) by lia.
      assert (HE' : E = (-149)%Z).
      { rewrite HE. unfold n. simpl Zdigits2. rewrite ?fexp_binary32. lia. }
      left. split; [exact HE'|].
      assert (F2R (0 + 1) e' = bpow e')
        by (change (0 + 1)%Z with 1%Z; unfold F2R; lra).
      pose proof (bpow_le e' (-125) ltac:(lia)). lra.
    - pose proof (digits2_pos_bounds p) as Hd.
      set (d := Z.pos (digits2_pos p)) in *.
      assert (Hd24 : (e' <= -149 \/ 24 <= d)%Z).
      { destruct Hbig as [H|H]; [left; exact H|right].
        destruct (Z_le_gt_dec 24 d) as [H24|H24]; [exact H24|].
        assert (2 ^ d <= 2 ^ 23)%Z by (apply Z.pow_le_mono_r; lia).
        change (2 ^ 23)%Z with 8388608%Z in H0. lia. }
      assert (HE' : E = Z.max (d + e' - 24) (-149)).
      { rewrite HE. unfold n. simpl Zdigits2. fold d. rewrite ?fexp_binary32. lia. }
      assert (Hlow : bpow (d - 1 + e') <= v).
      { rewrite <- F2R_bpow by (unfold d; lia).
        pose proof (F2R_le _ _ e' (proj1 Hd)). lra. }
      assert (Hup : v < bpow (d + e')).
      { rewrite <- F2R_bpow by (unfold d; lia).
        pose proof (F2R_le (Z.pos p + 1) (2 ^ d) e' ltac:(lia)). lra. }
      destruct (Z_le_gt_dec (d + e' - 24) (-149)) as [Hsub|Hnorm].
      + left. split; [lia|].
        pose proof (bpow_le (d + e') (-125) ltac:(lia)). lra.
      + right. split; [lia|].
        replace (E + 23)%Z with (d - 1 + e')%Z by lia.
        replace (E + 24)%Z with (d + e')%Z by lia. lra. }
  exists E, (shr_m mrs), (loc_of_shr_record mrs).
  split; [exact Hrep'|]. split; [exact Hscale|].
  pose proof (scale_bounds _ _ _ _ Hrep' Hscale ltac:(lra)) as (Ha & Hb' & _).
  pose proof (round_nearest_even_bounds (shr_m mrs) (loc_of_shr_record mrs)) as Hr.
  change (2 ^ 24)%Z with 16777216%Z in Hb'.
  apply round_finish; lia.
Qed.

Lemma F2R_lt (m1 m2 e : Z) : (m1 < m2)%Z -> F2R m1 e < F2R m2 e.
Proof.
  intros H. unfold F2R. apply IZR_lt in H. pose proof (bpow_gt_0 e). nra.
Qed.

Lemma F2R_pos (m : positive) (e : Z) : 0 < F2R (Z.pos m) e.
Proof.
  unfold F2R. assert (0 < IZR (Z.pos m)) by (apply IZR_lt; lia).
  pose proof (bpow_gt_0 e). nra.
Qed.

(** The quotient of two positive binary32 numbers, and its rank. *)
Lemma SFdiv_ranked (mx : positive) (ex : Z) (my : positive) (ey : Z) :
  exists E m l,
    represents m E l (F2R (Z.pos mx) ex / F2R (Z.pos my) ey) /\
    scale_ok (F2R (Z.pos mx) ex / F2R (Z.pos my) ey) E /\
    (0 <= rank E (round_nearest_even m l))%Z /\
    ranked (SFdiv 24 128 (S754_finite false mx ex) (S754_finite false my ey))
      (rank E (round_nearest_even m l)).
Proof.
  assert (Hv : 0 < F2R (Z.pos mx) ex / F2R (Z.pos my) ey).
  { apply Rdiv_lt_0_compat; apply F2R_pos. }
  unfold SFdiv. simpl xorb.
  pose proof (SFdiv_core_represents mx ex my ey) as Hcore.
  destruct (SFdiv_core_binary 24 128 (Z.pos mx) ex (Z.pos my) ey) as [[q e'] l].
  destruct Hcore as (Hrep & Hq & Hbig).
  destruct (binary_round_aux_finish q e' l _ Hv Hq Hrep Hbig)
    as (E & m1 & l1 & Hrep' & Hscale & ->).
  exists E, m1, l1. split; [exact Hrep'|]. split; [exact Hscale|].
  pose proof (scale_bounds _ _ _ _ Hrep' Hscale ltac:(lra)) as (Ha & Hb & Hc).
  pose proof (round_nearest_even_bounds m1 l1) as Hr.
  change (2 ^ 24)%Z with 16777216%Z in Hb.
  change (2 ^ 23)%Z with 8388608%Z in Hc.
  split; [unfold rank; lia|]. apply finish_ranked. lia.
Qed.

(** Division by a larger positive number gives a quotient that is not
    larger, after rounding. *)
Lemma SFdiv_antitone (mx : positive) (ex : Z) (m1 : positive) (e1 : Z)
    (m2 : positive) (e2 : Z) :
  F2R (Z.pos m1) e1 <= F2R (Z.pos m2) e2 ->
  SFleb (SFdiv 24 128 (S754_finite false mx ex) (S754_finite false m2 e2))
        (SFdiv 24 128 (S754_finite false mx ex) (S754_finite false m1 e1))
  = true.
Proof.
  intros Hle.
  destruct (SFdiv_ranked mx ex m1 e1) as (E1 & n1 & l1 & Hr1 & Hs1 & _ & Hk1).
  destruct (SFdiv_ranked mx ex m2 e2) as (E2 & n2 & l2 & Hr2 & Hs2 & _ & Hk2).
  apply (ranked_le _ _ _ _ Hk2 Hk1).
  pose proof (F2R_pos mx ex) as HX. pose proof (F2R_pos m1 e1) as HY1.
  pose proof (F2R_pos m2 e2) as HY2.
  apply (rank_monotone _ _ _ _ _ _ _ _ Hr2 Hs2 Hr1 Hs1).
  - apply Rlt_le, Rdiv_lt_0_compat; assumption.
  - unfold Rdiv. apply Rmult_le_compat_l; [lra|].
    apply Rinv_le_contravar; assumption.
Qed.

(** On binary32 numbers the comparison of floats is that of their values. *)
Lemma valid_lt_F2R (m1 : positive) (e1 : Z) (m2 : positive) (e2 : Z) :
  valid_binary 24 128 (S754_finite false m1 e1) = true ->
  valid_binary 24 128 (S754_finite false m2 e2) = true ->
  SFltb (S754_finite false m1 e1) (S754_finite false m2 e2) = true ->
  F2R (Z.pos m1) e1 < F2R (Z.pos m2) e2.
Proof.
  unfold valid_binary, SpecFloat.bounded, SpecFloat.canonical_mantissa.
  rewrite !fexp_binary32.
  intros H1 H2 Hlt.
  apply andb_true_iff in H1 as [H1 _]. apply andb_true_iff in H2 as [H2 _].
  apply Z.eqb_eq in H1, H2.
  pose proof (digits2_pos_bounds m1) as Hd1.
  pose proof (digits2_pos_bounds m2) as Hd2.
  unfold SFltb, SFcompare in Hlt.
  change (Pos.compare_cont Eq m1 m2) with (Pos.compare m1 m2) in Hlt.
  destruct (Z.compare_spec e1 e2) as [->|He|He]; [| |discriminate Hlt].
  - apply F2R_lt. destruct (Pos.compare_spec m1 m2); try discriminate Hlt. lia.
  - set (d1 := Z.pos (digits2_pos m1)) in *.
    set (d2 := Z.pos (digits2_pos m2)) in *.
    assert (Hd2' : d2 = 24%Z) by lia.
    assert (Hm1 : (Z.pos m1 < 2 ^ 24)%Z).
    { assert (2 ^ d1 <= 2 ^ 24)%Z by (apply Z.pow_le_mono_r; lia). lia. }
    rewrite Hd2' in Hd2. change (24 - 1)%Z with 23%Z in Hd2.
    pose proof (F2R_lt _ _ e1 Hm1) as Ha.
    pose proof (F2R_le _ _ e2 (proj1 Hd2)) as Hb.
    rewrite F2R_bpow in Ha, Hb by lia.
    pose proof (bpow_le (24 + e1) (23 + e2) ltac:(lia)). lra.
Qed.

End RoundingFacts.

(** ** The claim about the monotonicity of the derived precision *)

(** C9, as stated, fails.  With the default morph target precision 0.01 the
    deltas 5 and 5 + 2^-21, the next binary32 number, give the same derived
    precision, 8589934 * 2^-32: the second is not strictly smaller.  With a
    morph target precision of 0 every positive delta gives 0. *)
Lemma Precision_strict_counterexample :
  let this := UAnimCurveCompressionCodec_ACL_new in
  let exact :=
    {| CurvePrecision := F32.lit_0_001;
       MorphTargetPositionPrecision := F32.zero;
       MorphTargetSource := None |} in
  let d1 := F32.of_int 5 in
  let d2 := S754_finite false 10485761 (-21) in
  (F32.valid d1 = true /\ F32.valid d2 = true /\
   F32.gt d1 F32.zero = true /\ F32.lt d1 d2 = true) /\
  (Precision this d1 = S754_finite false 8589934 (-32) /\
   Precision this d2 = S754_finite false 8589934 (-32) /\
   F32.lt (Precision this d2) (Precision this d1) = false) /\
  (Precision exact d1 = F32.zero /\ Precision exact d2 = F32.zero /\
   F32.lt (Precision exact d2) (Precision exact d1) = false).
Proof.
  vm_compute. repeat split; reflexivity.
Qed.

(** C9, amended.  Holding the configured precisions fixed, with a morph
    target precision that is finite and not negative, for all binary32 deltas
    [0 < d1 < d2] the derived precision at [d2] is smaller than or equal to
    the derived precision at [d1]; at a delta of zero the result is the
    configured curve precision exactly. *)
Theorem Precision_antitone (this : UAnimCurveCompressionCodec_ACL)
    (d1 d2 : float) :
  F32.valid d1 = true -> F32.valid d2 = true ->
  F32.le F32.zero (MorphTargetPositionPrecision this) = true ->
  MorphTargetPositionPrecision this <> S754_infinity false ->
  F32.gt d1 F32.zero = true -> F32.lt d1 d2 = true ->
  F32.le (Precision this d2) (Precision this d1) = true /\
  (forall d0 : float,
     F32.is_zero d0 = true -> Precision this d0 = CurvePrecision this).
Proof.
  intros Hv1 Hv2 Hmp Hinf Hpos Hlt. split.
  2: { intros d0 H0. destruct d0; try discriminate H0. reflexivity. }
  assert (Hpos2 : F32.gt d2 F32.zero = true).
  { destruct d1 as [[]|[]| |[] m1 e1]; try discriminate Hpos;
      destruct d2 as [[]|[]| |[] m2 e2]; try discriminate Hlt; reflexivity. }
  unfold Precision. rewrite Hpos, Hpos2.
  destruct d1 as [[]|[]| |[] m1 e1]; try discriminate Hpos;
    [destruct d2 as [[]|[]| |[] m2 e2]; discriminate Hlt|].
  destruct (MorphTargetPositionPrecision this) as [s|s| |s mx ex].
  - destruct d2 as [[]|[]| |[] m2 e2]; try discriminate Hpos2;
      destruct s; reflexivity.
  - destruct s; [discriminate Hmp|congruence].
  - discriminate Hmp.
  - destruct s; [discriminate Hmp|].
    destruct d2 as [[]|[]| |[] m2 e2]; try discriminate Hpos2.
    + destruct (SFdiv_ranked mx ex m1 e1) as (E & m & l & _ & _ & Hr & Hk).
      apply (ranked_le (S754_zero false) _ 0 _ eq_refl Hk Hr).
    + apply SFdiv_antitone. apply Rlt_le.
      apply valid_lt_F2R; assumption.
Qed.

Lemma Precision_antitone_witness :
  F32.le (Precision UAnimCurveCompressionCodec_ACL_new (F32.of_int 50))
         (Precision UAnimCurveCompressionCodec_ACL_new (F32.of_int 3)) = true.
Proof.
  refine (proj1 (Precision_antitone UAnimCurveCompressionCodec_ACL_new
                   (F32.of_int 3) (F32.of_int 50) _ _ _ _ _ _)).
  - reflexivity.
  - reflexivity.
  - reflexivity.
  - discriminate.
  - reflexivity.
  - reflexivity.
Defined.

(** * Further properties *)

(** ** The order of floats *)

Lemma SFcompare_finite (s1 : bool) (m1 : positive) (e1 : Z) (s2 : bool)
    (m2 : positive) (e2 : Z) :
  SFcompare (S754_finite s1 m1 e1) (S754_finite s2 m2 e2)
  = Some match s1, s2 with
         | true, false => Lt
         | false, true => Gt
         | false, false =>
             match e1 ?= e2 with
             | Lt => Lt
             | Gt => Gt
             | Eq => (m1 ?= m2)%positive
             end
         | true, true =>
             match e1 ?= e2 with
             | Lt => Gt
             | Gt => Lt
             | Eq => CompOpp (m1 ?= m2)%positive
             end
         end.
Proof. reflexivity. Qed.

Lemma SFleb_refl (x : float) : is_nan x = false -> SFleb x x = true.
Proof.
  destruct x as [[]|[]| |[] m e]; try reflexivity; try discriminate; intros _;
    unfold SFleb; rewrite SFcompare_finite, Z.compare_refl, Pos.compare_refl;
    reflexivity.
Qed.

Lemma SFltb_SFleb (x y : float) : SFltb x y = true -> SFleb x y = true.
Proof.
  unfold SFltb, SFleb. destruct (SFcompare x y) as [[]|]; congruence.
Qed.

Lemma SFleb_not_nan (x y : float) :
  SFleb x y = true -> is_nan x = false /\ is_nan y = false.
Proof.
  destruct x as [[]|[]| |[] m e], y as [[]|[]| |[] m' e'];
    try discriminate; split; reflexivity.
Qed.

Lemma SFleb_total (x y : float) :
  is_nan x = false -> is_nan y = false -> SFleb y x = false -> SFltb x y = true.
Proof.
  destruct x as [[]|[]| |[] m e], y as [[]|[]| |[] m' e'];
    try discriminate; try reflexivity; intros _ _;
    unfold SFleb, SFltb; rewrite !SFcompare_finite;
    rewrite (Z.compare_antisym e e'), (Pos.compare_antisym m m');
    destruct (e ?= e'); simpl; try discriminate; try reflexivity;
    destruct (m ?= m')%positive; simpl; try discriminate; reflexivity.
Qed.

Lemma SFleb_trans (x y z : float) :
  SFleb x y = true -> SFleb y z = true -> SFleb x z = true.
Proof.
  destruct x as [[]|[]| |[] m1 e1]; destruct z as [[]|[]| |[] m3 e3];
    try reflexivity;
    destruct y as [[]|[]| |[] m2 e2]; try discriminate;
    unfold SFleb; rewrite !SFcompare_finite;
    destruct (Z.compare_spec e1 e2); try discriminate;
    destruct (Z.compare_spec e2 e3); try discriminate;
    destruct (Pos.compare_spec m1 m2); try discriminate;
    destruct (Pos.compare_spec m2 m3); try discriminate;
    intros _ _; simpl;
    destruct (Z.compare_spec e1 e3); try lia;
    destruct (Pos.compare_spec m1 m3); try lia; reflexivity.
Qed.

(** ** The largest position delta *)

Lemma fold_FMath_Max {A : Type} (f : A -> float) (l : list A) (acc : float) :
  is_nan acc = false ->
  (forall D, D ∈ l -> is_nan (f D) = false) ->
  let r := fold_left (fun a D => FMath_Max a (f D)) l acc in
  is_nan r = false /\
  F32.le acc r = true /\
  (forall D, D ∈ l -> F32.le (f D) r = true) /\
  (r = acc \/ exists D, D ∈ l /\ r = f D).
Proof.
  revert acc. induction l as [|D l IH]; intros acc Hacc Hall; simpl.
  - split; [exact Hacc|]. split; [apply SFleb_refl, Hacc|].
    split; [|left; reflexivity].
    intros D HD. apply elem_of_nil in HD. contradiction.
  - assert (HD : is_nan (f D) = false) by (apply Hall, elem_of_cons; auto).
    assert (Hl : forall D', D' ∈ l -> is_nan (f D') = false)
      by (intros D' HD'; apply Hall, elem_of_cons; auto).
    destruct (SFleb (f D) acc) eqn:Hge.
    + assert (Hm : FMath_Max acc (f D) = acc)
        by (unfold FMath_Max, F32.ge; rewrite Hge; reflexivity).
      rewrite Hm.
      destruct (IH acc Hacc Hl) as (Hr & Hle & Hin & Hor).
      split; [exact Hr|]. split; [exact Hle|]. split.
      * intros D' HD'. apply elem_of_cons in HD' as [->|HD'].
        -- eapply SFleb_trans; [exact Hge|exact Hle].
        -- apply Hin, HD'.
      * destruct Hor as [Hor|(D' & HD' & Hor)]; [left; exact Hor|right].
        exists D'. split; [apply elem_of_cons; auto|exact Hor].
    + assert (Hm : FMath_Max acc (f D) = f D)
        by (unfold FMath_Max, F32.ge; rewrite Hge; reflexivity).
      rewrite Hm.
      pose proof (SFltb_SFleb _ _ (SFleb_total _ _ Hacc HD Hge)) as Hlt.
      destruct (IH (f D) HD Hl) as (Hr & Hle & Hin & Hor).
      split; [exact Hr|]. split; [eapply SFleb_trans; [exact Hlt|exact Hle]|].
      split.
      * intros D' HD'. apply elem_of_cons in HD' as [->|HD'].
        -- exact Hle.
        -- apply Hin, HD'.
      * right. destruct Hor as [Hor|(D' & HD' & Hor)].
        -- exists D. split; [apply elem_of_cons; auto|exact Hor].
        -- exists D'. split; [apply elem_of_cons; auto|exact Hor].
Qed.

(** X2. [GetMorphTargetMaxPositionDeltas] returns one delta per curve, and
    the delta of a curve is [+0.0] when there is no morph target source, when
    the source has no morph target of the curve's name, and when that target
    has no vertex delta at level of detail 0. *)
Theorem GetMorphTargetMaxPositionDeltas_zero (Size : FVector -> float)
    (AnimSeq : FCompressibleAnimData) (Source : option USkeletalMesh)
    (CurveIndex : nat) (Curve : FFloatCurve) :
  FloatCurves AnimSeq !! CurveIndex = Some Curve ->
  Source = None \/
  (exists Mesh, Source = Some Mesh /\
     (FindMorphTarget Mesh (DisplayName (Name Curve)) = None \/
      exists Target,
        FindMorphTarget Mesh (DisplayName (Name Curve)) = Some Target /\
        GetMorphTargetDelta Target 0 = [])) ->
  length (GetMorphTargetMaxPositionDeltas Size AnimSeq Source)
  = length (FloatCurves AnimSeq) /\
  GetMorphTargetMaxPositionDeltas Size AnimSeq Source !! CurveIndex
  = Some F32.zero.
Proof.
  intros Hcurve Hcase. split.
  - unfold GetMorphTargetMaxPositionDeltas. destruct Source as [Mesh|].
    + rewrite for_range_length. apply length_replicate.
    + apply length_replicate.
  - rewrite GetMorphTargetMaxPositionDeltas_lookup
      by (eapply lookup_lt_Some, Hcurve).
    rewrite (list_lookup_total_correct _ _ _ Hcurve).
    destruct Hcase as [->|(Mesh & -> & [Hnone|(Target & Hsome & Hempty)])].
    + reflexivity.
    + rewrite Hnone. reflexivity.
    + rewrite Hsome, Hempty. reflexivity.
Qed.

Lemma GetMorphTargetMaxPositionDeltas_zero_witness :
  GetMorphTargetMaxPositionDeltas Examples.FVector_Size Examples.anim
    (Some Examples.mesh) !! 1%nat = Some F32.zero.
Proof.
  refine (proj2 (GetMorphTargetMaxPositionDeltas_zero Examples.FVector_Size
                   Examples.anim (Some Examples.mesh) 1
                   (Examples.ramp "Speed" 9%N) _ _)).
  - reflexivity.
  - right. exists Examples.mesh. split; [reflexivity|]. left. reflexivity.
Defined.

(** X3. When no vertex delta of the curve's morph target has a NaN size, the
    delta of the curve is not negative, it is at least the size of every
    vertex delta of the target at level of detail 0, and it is [+0.0] or the
    size of one of them. *)
Theorem GetMorphTargetMaxPositionDeltas_largest (Size : FVector -> float)
    (AnimSeq : FCompressibleAnimData) (Mesh : USkeletalMesh)
    (CurveIndex : nat) (Curve : FFloatCurve) (Target : UMorphTarget) :
  FloatCurves AnimSeq !! CurveIndex = Some Curve ->
  FindMorphTarget Mesh (DisplayName (Name Curve)) = Some Target ->
  (forall s, s ∈ delta_sizes Size Target -> is_nan s = false) ->
  exists d,
    GetMorphTargetMaxPositionDeltas Size AnimSeq (Some Mesh) !! CurveIndex
    = Some d /\
    F32.le F32.zero d = true /\
    (forall s, s ∈ delta_sizes Size Target -> F32.le s d = true) /\
    (d = F32.zero \/ d ∈ delta_sizes Size Target).
Proof.
  intros Hcurve Htarget Hnan.
  rewrite GetMorphTargetMaxPositionDeltas_lookup
    by (eapply lookup_lt_Some, Hcurve).
  rewrite (list_lookup_total_correct _ _ _ Hcurve), Htarget.
  eexists. split; [reflexivity|].
  destruct (fold_FMath_Max (fun Delta => Size (PositionDelta Delta))
              (GetMorphTargetDelta Target 0) F32.zero eq_refl)
    as (_ & Hle & Hin & Hor).
  { intros D HD. apply Hnan. unfold delta_sizes.
    apply list_elem_of_fmap. exists D. split; [reflexivity|exact HD]. }
  split; [exact Hle|]. split.
  - intros s Hs. unfold delta_sizes in Hs.
    apply list_elem_of_fmap in Hs as (D & -> & HD). apply Hin, HD.
  - destruct Hor as [Hor|(D & HD & Hor)]; [left; exact Hor|right].
    rewrite Hor. unfold delta_sizes. apply list_elem_of_fmap.
    exists D. split; [reflexivity|exact HD].
Qed.

Lemma GetMorphTargetMaxPositionDeltas_largest_witness :
  exists d,
    GetMorphTargetMaxPositionDeltas Examples.FVector_Size Examples.anim
      (Some Examples.mesh) !! 0%nat = Some d /\
    F32.le (F32.of_int 3) d = true /\ F32.le Examples.five d = true.
Proof.
  destruct (GetMorphTargetMaxPositionDeltas_largest Examples.FVector_Size
              Examples.anim Examples.mesh 0 (Examples.ramp "Smile" 7%N)
              {| GetMorphTargetDelta :=
                   fun _ => [Examples.vec 3 0 0; Examples.vec 3 4 0] |})
    as (d & Hd & _ & Hall & _).
  - reflexivity.
  - reflexivity.
  - intros s Hs. vm_compute in Hs.
    apply elem_of_cons in Hs as [->|Hs]; [reflexivity|].
    apply list_elem_of_singleton in Hs as ->. reflexivity.
  - exists d. split; [exact Hd|]. split; apply Hall; vm_compute.
    + apply elem_of_cons. left. reflexivity.
    + apply elem_of_cons. right. apply list_elem_of_singleton. reflexivity.
Defined.

(** ** More about the tracks of [Compress] *)

(** X4. A curve that drives no morph target (no source, no target of its
    name, or a target without vertex deltas) is compressed with the
    configured curve precision, as precision and as constant threshold,
    whatever the morph target precision is. *)
Theorem Compress_precision_without_morph_target (Size : FVector -> float)
    (this : UAnimCurveCompressionCodec_ACL) (AnimSeq : FCompressibleAnimData)
    (CurveIndex : nat) (Curve : FFloatCurve) (Track : track_float1f) :
  FloatCurves AnimSeq !! CurveIndex = Some Curve ->
  Compress_tracks Size this AnimSeq !! CurveIndex = Some Track ->
  MorphTargetSource this = None \/
  (exists Mesh, MorphTargetSource this = Some Mesh /\
     (FindMorphTarget Mesh (DisplayName (Name Curve)) = None \/
      exists Target,
        FindMorphTarget Mesh (DisplayName (Name Curve)) = Some Target /\
        GetMorphTargetDelta Target 0 = [])) ->
  precision (desc Track) = CurvePrecision this /\
  constant_threshold (desc Track) = CurvePrecision this.
Proof.
  intros Hcurve Htrack Hcase.
  apply Compress_tracks_lookup in Htrack as [Hlt ->].
  rewrite Compress_track_desc; simpl.
  assert (Hzero : GetMorphTargetMaxPositionDeltas Size AnimSeq
                    (MorphTargetSource this) !! CurveIndex = Some F32.zero).
  { rewrite GetMorphTargetMaxPositionDeltas_lookup by exact Hlt.
    rewrite (list_lookup_total_correct _ _ _ Hcurve).
    destruct Hcase as [->|(Mesh & -> & [Hnone|(Target & Hsome & Hempty)])].
    - reflexivity.
    - rewrite Hnone. reflexivity.
    - rewrite Hsome, Hempty. reflexivity. }
  rewrite (list_lookup_total_correct _ _ _ Hzero). split; reflexivity.
Qed.

Lemma Compress_precision_without_morph_target_witness :
  let Track := Compress_tracks Examples.FVector_Size
                 UAnimCurveCompressionCodec_ACL_new Examples.anim !!! 0%nat in
  precision (desc Track) = F32.lit_0_001 /\
  constant_threshold (desc Track) = F32.lit_0_001.
Proof.
  apply (Compress_precision_without_morph_target Examples.FVector_Size
           UAnimCurveCompressionCodec_ACL_new Examples.anim 0
           (Examples.ramp "Smile" 7%N)).
  - reflexivity.
  - vm_compute. reflexivity.
  - left. reflexivity.
Defined.

(** X5. With a frame count of zero [Compress] still builds one track per
    curve, with the sample rate 30.0, and every track is empty: no curve is
    evaluated. *)
Theorem Compress_tracks_without_frames (Size : FVector -> float)
    (this : UAnimCurveCompressionCodec_ACL) (AnimSeq : FCompressibleAnimData) :
  NumFrames AnimSeq = 0 ->
  length (Compress_tracks Size this AnimSeq) = length (FloatCurves AnimSeq) /\
  forall (CurveIndex : nat) (Track : track_float1f),
    Compress_tracks Size this AnimSeq !! CurveIndex = Some Track ->
    samples Track = [] /\ sample_rate Track = F32.thirty.
Proof.
  intros Hzero. split; [apply Compress_tracks_length|].
  intros CurveIndex Track Htrack.
  apply Compress_tracks_lookup in Htrack as [_ ->].
  rewrite Compress_track_samples, Compress_track_sample_rate, Hzero.
  split; reflexivity.
Qed.

Lemma Compress_tracks_without_frames_witness :
  length (Compress_tracks Examples.FVector_Size Examples.codec
            MoreExamples.anim_empty) = 2%nat /\
  samples (Compress_tracks Examples.FVector_Size Examples.codec
             MoreExamples.anim_empty !!! 1%nat) = [].
Proof.
  destruct (Compress_tracks_without_frames Examples.FVector_Size Examples.codec
              MoreExamples.anim_empty eq_refl) as [Hlen Hall].
  split; [exact Hlen|].
  apply (Hall 1%nat). vm_compute. reflexivity.
Defined.

Lemma FMath_Clamp_range (X Min Max : float) :
  F32.le Min Max = true ->
  F32.le Min (FMath_Clamp X Min Max) = true /\
  F32.le (FMath_Clamp X Min Max) Max = true.
Proof.
  intros Hle. destruct (SFleb_not_nan _ _ Hle) as [HMin HMax].
  unfold FMath_Clamp, F32.lt, F32.le in *.
  destruct (SFltb X Min) eqn:Hlow.
  - split; [apply SFleb_refl, HMin|exact Hle].
  - destruct (SFltb X Max) eqn:Hhigh.
    + pose proof (SFltb_SFleb _ _ Hhigh) as HX.
      destruct (SFleb_not_nan _ _ HX) as [HXn _].
      split; [|exact HX].
      destruct (SFleb Min X) eqn:Hcmp; [reflexivity|].
      rewrite (SFleb_total _ _ HXn HMin Hcmp) in Hlow. discriminate Hlow.
    + split; [exact Hle|apply SFleb_refl, HMax].
Qed.

(** X6. When the sequence length is not negative, every sample of every
    track is the value of the curve at a time between 0 and the sequence
    length: a curve is never evaluated outside the sequence. *)
Theorem Compress_samples_within_sequence (Size : FVector -> float)
    (this : UAnimCurveCompressionCodec_ACL) (AnimSeq : FCompressibleAnimData)
    (CurveIndex : nat) (Track : track_float1f) (SampleIndex : nat)
    (SampleValue : float) :
  int32_range (NumFrames AnimSeq) ->
  0 <= NumFrames AnimSeq ->
  F32.le F32.zero (SequenceLength AnimSeq) = true ->
  Compress_tracks Size this AnimSeq !! CurveIndex = Some Track ->
  samples Track !! SampleIndex = Some SampleValue ->
  exists t : float,
    SampleValue = Eval (FloatCurve (FloatCurves AnimSeq !!! CurveIndex)) t /\
    F32.le F32.zero t = true /\
    F32.le t (SequenceLength AnimSeq) = true.
Proof.
  intros Hrange Hpos Hlen Htrack Hsample.
  apply Compress_tracks_lookup in Htrack as [_ ->].
  rewrite Compress_track_samples in Hsample.
  assert (Hreserve : Z.to_nat (uint32_of_int32 (NumFrames AnimSeq))
                     = Z.to_nat (NumFrames AnimSeq)).
  { unfold uint32_of_int32. unfold int32_range in Hrange.
    rewrite Z.mod_small; lia. }
  rewrite Hreserve in Hsample.
  assert (Hindex : (SampleIndex < Z.to_nat (NumFrames AnimSeq))%nat).
  { apply lookup_lt_Some in Hsample.
    rewrite (for_range_length
               (fun SampleIndex =>
                  Eval (FloatCurve (FloatCurves AnimSeq !!! CurveIndex))
                    (SampleTime (NumFrames AnimSeq) (SequenceLength AnimSeq)
                       SampleIndex))) in Hsample.
    rewrite length_replicate in Hsample. exact Hsample. }
  rewrite (for_range_lookup_in
             (fun SampleIndex =>
                Eval (FloatCurve (FloatCurves AnimSeq !!! CurveIndex))
                  (SampleTime (NumFrames AnimSeq) (SequenceLength AnimSeq)
                     SampleIndex))) in Hsample;
    [|lia|rewrite length_replicate; exact Hindex].
  injection Hsample as <-.
  exists (SampleTime (NumFrames AnimSeq) (SequenceLength AnimSeq) SampleIndex).
  split; [reflexivity|]. unfold SampleTime. apply FMath_Clamp_range, Hlen.
Qed.

Lemma Compress_samples_within_sequence_witness :
  exists t : float,
    S754_finite false 14380472 (-25) = t /\
    F32.le F32.zero t = true /\ F32.le t F32.one = true.
Proof.
  assert (Hr : int32_range (NumFrames Examples.anim))
    by (unfold int32_range; simpl; lia).
  assert (Hp : 0 <= NumFrames Examples.anim) by (simpl; lia).
  apply (Compress_samples_within_sequence Examples.FVector_Size Examples.codec
           Examples.anim 0
           (Compress_tracks Examples.FVector_Size Examples.codec Examples.anim
              !!! 0%nat) 3 (S754_finite false 14380472 (-25)) Hr Hp).
  - reflexivity.
  - vm_compute. reflexivity.
  - vm_compute. reflexivity.
Defined.

(** ** The success path of [Compress] *)

(** X7. When ACL's compressor reports no error, [Compress] returns [true]
    with, as result, exactly the blob that ACL produced and the codec itself,
    whatever the result held before; the compressor is called once.  A debug
    build checks the deep validity of the blob first and dies when it does
    not hold. *)
Theorem Compress_success (acl : acl_library) (Size : FVector -> float)
    (DO_GUARD_SLOW : bool) (this : UAnimCurveCompressionCodec_ACL)
    (AnimSeq : FCompressibleAnimData) (OutResult : FAnimCurveCompressionResult) :
  let Result := compress_track_list acl (Compress_tracks Size this AnimSeq) in
  let NewResult := {| CompressedBytes := snd Result; Codec := Some this |} in
  ErrorResult_any (fst Result) = false ->
  run (Compress acl Size DO_GUARD_SLOW this AnimSeq OutResult)
  = if DO_GUARD_SLOW then
      if ErrorResult_empty (is_valid acl (snd Result) true)
      then (Returned (true, NewResult),
            [call_compress_track_list; call_is_valid true])
      else (CheckFailed, [call_compress_track_list; call_is_valid true])
    else (Returned (true, NewResult), [call_compress_track_list]).
Proof.
  intros Result NewResult Hok. unfold run, Compress. subst NewResult Result.
  destruct (compress_track_list acl (Compress_tracks Size this AnimSeq))
    as [CompressionResult CompressedTracks].
  simpl in Hok |- *. unfold mbind, exec_bind, emit. simpl. rewrite Hok.
  unfold checkSlow. destruct DO_GUARD_SLOW.
  - unfold mbind, exec_bind, emit, check, mret, exec_ret. simpl.
    destruct (ErrorResult_empty (is_valid acl CompressedTracks true));
      reflexivity.
  - reflexivity.
Qed.

Lemma Compress_success_witness :
  run (Compress Examples.acl_accepting Examples.FVector_Size true
         Examples.codec Examples.anim Examples.empty_result)
  = (Returned (true, {| CompressedBytes := []; Codec := Some Examples.codec |}),
     [call_compress_track_list; call_is_valid true]).
Proof.
  apply (Compress_success Examples.acl_accepting Examples.FVector_Size true
           Examples.codec Examples.anim Examples.empty_result).
  reflexivity.
Defined.

(** ** More about decompression *)

(** One turn of the loop of [decompress_tracks] with [UE4CurveWriter]. *)
Lemma write_float1_step (acl : acl_library) (Context : decompression_context)
    (sample_time : float) (policy : SampleRoundingPolicy) (TrackIndex : nat)
    (Writer : UE4CurveWriter) (tr : list call) :
  ctx_seek Context = Some (sample_time, policy) ->
  (value ← read_track acl Context TrackIndex;
   write_float1 Writer TrackIndex value) tr
  = match Writer_CompressedCurveNames Writer !! TrackIndex with
    | None => (CheckFailed, tr)
    | Some CurveName =>
        let value := sample acl (ctx_tracks Context) sample_time policy
                       TrackIndex in
        if IsEnabled (Writer_Curves Writer) (UID CurveName)
        then (Returned
                {| Writer_CompressedCurveNames :=
                     Writer_CompressedCurveNames Writer;
                   Writer_Curves :=
                     Set_ (Writer_Curves Writer) (UID CurveName) value |},
              tr ++ [call_Curves_Set (UID CurveName) value])
        else (Returned Writer, tr)
    end.
Proof.
  intros Hseek. unfold read_track. rewrite Hseek.
  unfold mbind, exec_bind, mret, exec_ret, write_float1, UE4CurveWriter_writer.
  destruct (Writer_CompressedCurveNames Writer !! TrackIndex) as [CurveName|].
  - destruct (IsEnabled (Writer_Curves Writer) (UID CurveName)); reflexivity.
  - reflexivity.
Qed.

(** The loop returns when its body does, and keeps what the body keeps. *)
Lemma for_rangeM_returns {S : Type} (P : nat -> S -> Prop)
    (body : nat -> S -> exec S) (last : nat) :
  (forall i s tr, (i < last)%nat -> P i s ->
     exists s' tr',
       body i s tr = (Returned s', tr') /\ P (Datatypes.S i) s') ->
  forall count first s tr, (first + count <= last)%nat -> P first s ->
    exists s' tr',
      for_rangeM first count body s tr = (Returned s', tr') /\
      P (first + count)%nat s'.
Proof.
  intros Hstep. induction count as [|count IH]; intros first s tr Hlast HP.
  - exists s, tr. split; [reflexivity|]. rewrite Nat.add_0_r. exact HP.
  - simpl. unfold mbind, exec_bind.
    destruct (Hstep first s tr ltac:(lia) HP) as (s1 & tr1 & Hbody & HP1).
    rewrite Hbody.
    destruct (IH (Datatypes.S first) s1 tr1 ltac:(lia) HP1)
      as (s' & tr' & Hloop & HP').
    exists s', tr'. split; [exact Hloop|].
    replace (first + Datatypes.S count)%nat
      with (Datatypes.S first + count)%nat by lia.
    exact HP'.
Qed.

Section DecompressCurvesFacts.

Variable acl : acl_library.
Variable AnimSeq : FCompressedAnimSequence.
Variable Curves : gmap UID_Type FCurveElement.
Variable CurrentTime : float.

(** With a blob that passes the check and has no more tracks than there are
    identities, [DecompressCurves] returns, and what holds of the buffer
    before the first track and is kept by every track holds of the result. *)
Lemma DecompressCurves_returns_with
    (P : nat -> gmap UID_Type FCurveElement -> Prop) :
  CompressedCurveNames AnimSeq <> [] ->
  ErrorResult_empty (is_valid acl (CompressedCurveByteStream AnimSeq) false)
  = true ->
  (get_num_tracks acl (CompressedCurveByteStream AnimSeq)
   <= length (CompressedCurveNames AnimSeq))%nat ->
  P O Curves ->
  (forall i CurveName C,
     (i < get_num_tracks acl (CompressedCurveByteStream AnimSeq))%nat ->
     CompressedCurveNames AnimSeq !! i = Some CurveName ->
     P i C ->
     P (Datatypes.S i)
       (if IsEnabled C (UID CurveName)
        then Set_ C (UID CurveName)
               (sample acl (CompressedCurveByteStream AnimSeq) CurrentTime
                  SampleRoundingPolicy_None i)
        else C)) ->
  exists Curves',
    fst (run (DecompressCurves acl AnimSeq Curves CurrentTime))
    = Returned Curves' /\
    P (get_num_tracks acl (CompressedCurveByteStream AnimSeq)) Curves'.
Proof using Type.
  intros Hne Hvalid Hnum HP0 Hstep.
  unfold run, DecompressCurves.
  destruct (CompressedCurveNames AnimSeq) as [|Head rest] eqn:HNames;
    [congruence|].
  change ((length (Head :: rest) =? 0)%nat) with false. cbv iota.
  unfold mbind at 1 2. unfold exec_bind at 1 2. unfold emit, check. simpl.
  rewrite Hvalid.
  unfold mbind at 1 2. unfold exec_bind at 1 2.
  unfold initialize, seek, mbind at 1 2, exec_bind at 1 2, emit. simpl.
  unfold mbind at 1. unfold exec_bind at 1. unfold decompress_tracks.
  unfold mbind at 1. unfold exec_bind at 1. unfold emit. simpl.
  destruct (for_rangeM_returns
              (fun i Writer =>
                 Writer_CompressedCurveNames Writer = Head :: rest /\
                 P i (Writer_Curves Writer))
              (fun track_index writer =>
                 value ← read_track acl
                           {| ctx_tracks := CompressedCurveByteStream AnimSeq;
                              ctx_seek :=
                                Some (CurrentTime, SampleRoundingPolicy_None) |}
                           track_index;
                 write_float1 writer track_index value)
              (get_num_tracks acl (CompressedCurveByteStream AnimSeq)))
    with (count := get_num_tracks acl (CompressedCurveByteStream AnimSeq))
         (first := O)
         (s := {| Writer_CompressedCurveNames := Head :: rest;
                  Writer_Curves := Curves |})
         (tr := [call_is_valid false; call_initialize;
                 call_seek CurrentTime SampleRoundingPolicy_None;
                 call_decompress_tracks])
    as (Writer' & tr' & Hloop & _ & HP').
  - intros i Writer tr Hi [HW HPi].
    rewrite (write_float1_step acl _ CurrentTime SampleRoundingPolicy_None)
      by reflexivity.
    rewrite HW.
    destruct ((Head :: rest) !! i) as [CurveName|] eqn:Hlook.
    + specialize (Hstep i CurveName (Writer_Curves Writer) Hi Hlook HPi).
      simpl.
      destruct (IsEnabled (Writer_Curves Writer) (UID CurveName)).
      * eexists _, _. split; [reflexivity|]. split; [reflexivity|exact Hstep].
      * eexists _, _. split; [reflexivity|]. split; [exact HW|exact Hstep].
    + apply lookup_ge_None in Hlook. lia.
  - lia.
  - split; [reflexivity|exact HP0].
  - simpl in Hloop. rewrite Hloop. simpl. exists (Writer_Curves Writer').
    split; [reflexivity|exact HP'].
Qed.

End DecompressCurvesFacts.

(** The loop dies at the first track that has no identity. *)
Lemma decompress_loop_fails (acl : acl_library) (Names : list FSmartName)
    (Context : decompression_context) (sample_time : float)
    (policy : SampleRoundingPolicy) :
  ctx_seek Context = Some (sample_time, policy) ->
  forall count first Writer tr,
    Writer_CompressedCurveNames Writer = Names ->
    (first <= length Names < first + count)%nat ->
    fst (for_rangeM first count
           (fun track_index writer =>
              value ← read_track acl Context track_index;
              write_float1 writer track_index value) Writer tr)
    = CheckFailed.
Proof.
  intros Hseek. induction count as [|count IH]; intros first Writer tr HW Hlen.
  - lia.
  - simpl. unfold mbind at 1. unfold exec_bind at 1.
    rewrite (write_float1_step acl _ sample_time policy) by exact Hseek.
    rewrite HW.
    destruct (Names !! first) as [CurveName|] eqn:Hlook.
    + apply lookup_lt_Some in Hlook. simpl.
      destruct (IsEnabled (Writer_Curves Writer) (UID CurveName));
        apply IH; try reflexivity; try exact HW; lia.
    + reflexivity.
Qed.

(** X8. [DecompressCurves] returns exactly when the identity list is empty,
    or the blob passes the validity check and holds no more tracks than there
    are identities; otherwise it dies on a check.  Fewer tracks than
    identities is not an error. *)
Theorem DecompressCurves_returns_iff (acl : acl_library)
    (AnimSeq : FCompressedAnimSequence) (Curves : gmap UID_Type FCurveElement)
    (CurrentTime : float) :
  (exists Curves',
     fst (run (DecompressCurves acl AnimSeq Curves CurrentTime))
     = Returned Curves') <->
  (CompressedCurveNames AnimSeq = [] \/
   (ErrorResult_empty (is_valid acl (CompressedCurveByteStream AnimSeq) false)
    = true /\
    (get_num_tracks acl (CompressedCurveByteStream AnimSeq)
     <= length (CompressedCurveNames AnimSeq))%nat)).
Proof.
  split.
  - intros [Curves' Hrun].
    destruct (CompressedCurveNames AnimSeq) as [|Head rest] eqn:HNames;
      [left; reflexivity|right].
    revert Hrun. unfold run, DecompressCurves. rewrite HNames.
    change ((length (Head :: rest) =? 0)%nat) with false. cbv iota.
    unfold mbind at 1 2. unfold exec_bind at 1 2. unfold emit, check. simpl.
    destruct (ErrorResult_empty
                (is_valid acl (CompressedCurveByteStream AnimSeq) false));
      [|discriminate].
    intros Hrun. split; [reflexivity|].
    destruct (le_lt_dec (get_num_tracks acl (CompressedCurveByteStream AnimSeq))
                (Datatypes.S (length rest))) as [Hle|Hgt]; [exact Hle|].
    exfalso. revert Hrun.
    unfold mbind at 1 2. unfold exec_bind at 1 2.
    unfold initialize, seek, mbind at 1 2, exec_bind at 1 2, emit. simpl.
    unfold mbind at 1. unfold exec_bind at 1. unfold decompress_tracks.
    unfold mbind at 1. unfold exec_bind at 1. unfold emit. simpl.
    pose proof (decompress_loop_fails acl (Head :: rest)
                  {| ctx_tracks := CompressedCurveByteStream AnimSeq;
                     ctx_seek := Some (CurrentTime, SampleRoundingPolicy_None) |}
                  CurrentTime SampleRoundingPolicy_None eq_refl
                  (get_num_tracks acl (CompressedCurveByteStream AnimSeq)) O
                  {| Writer_CompressedCurveNames := Head :: rest;
                     Writer_Curves := Curves |}
                  [call_is_valid false; call_initialize;
                   call_seek CurrentTime SampleRoundingPolicy_None;
                   call_decompress_tracks] eq_refl) as Hfail.
    simpl in Hfail. specialize (Hfail ltac:(lia)).
    destruct (for_rangeM 0 _ _ _ _) as [[Writer'|] tr']; simpl in Hfail |- *;
      [discriminate Hfail|discriminate].
  - intros [Hempty|[Hvalid Hnum]].
    + exists Curves. unfold run, DecompressCurves. rewrite Hempty. reflexivity.
    + destruct (CompressedCurveNames AnimSeq) as [|Head rest] eqn:HNames.
      * exists Curves. unfold run, DecompressCurves. rewrite HNames. reflexivity.
      * destruct (DecompressCurves_returns_with acl AnimSeq Curves CurrentTime
                    (fun _ _ => True)) as (Curves' & Hrun & _); auto.
        -- rewrite HNames. discriminate.
        -- rewrite HNames. exact Hnum.
        -- exists Curves'. exact Hrun.
Qed.

(** The track [j] is the last one that carries [CurveUID]: once it is
    written, the entry of [CurveUID] holds its value, and stays enabled. *)
Lemma last_track_step (CurveUID : UID_Type) (j last : nat)
    (Names : list FSmartName) (value : nat -> float) (CurveName : FSmartName)
    (i : nat) (Name : FSmartName) (C : gmap UID_Type FCurveElement) :
  Names !! j = Some CurveName -> UID CurveName = CurveUID ->
  (forall (k : nat) (Other : FSmartName),
     (j < k)%nat -> (k < last)%nat -> Names !! k = Some Other ->
     UID Other <> CurveUID) ->
  (i < last)%nat -> Names !! i = Some Name ->
  IsEnabled C CurveUID = true /\
  ((j < i)%nat ->
   C !! CurveUID = Some {| Value := value j; bValid := true |}) ->
  let C' := if IsEnabled C (UID Name) then Set_ C (UID Name) (value i) else C in
  IsEnabled C' CurveUID = true /\
  ((j < Datatypes.S i)%nat ->
   C' !! CurveUID = Some {| Value := value j; bValid := true |}).
Proof.
  intros Hlook Huid Hlast Hi Hname [HenC HC]. simpl.
  destruct (IsEnabled C (UID Name)) eqn:HenName.
  - split; [rewrite IsEnabled_Set_ by exact HenName; exact HenC|].
    intros Hji. destruct (decide (i = j)) as [->|Hne].
    + assert (Name = CurveName) by congruence. subst Name. rewrite Huid.
      unfold Set_. unfold IsEnabled in HenC.
      destruct (C !! CurveUID); [|discriminate HenC].
      apply lookup_insert_eq.
    + rewrite lookup_Set__ne; [apply HC; lia|].
      apply (Hlast i Name); [lia|exact Hi|exact Hname].
  - split; [exact HenC|]. intros Hji.
    destruct (decide (i = j)) as [->|Hne]; [|apply HC; lia].
    assert (Name = CurveName) by congruence. subst Name. congruence.
Qed.

(** X9. With a blob that passes the check, an enabled identity that is the
    identity of a track receives the value of the last track that carries it:
    when an identity is listed twice, the later track overwrites the earlier
    one, and the entry is marked valid. *)
Theorem DecompressCurves_last_track (acl : acl_library)
    (AnimSeq : FCompressedAnimSequence) (Curves : gmap UID_Type FCurveElement)
    (CurrentTime : float) (CurveUID : UID_Type) (j : nat)
    (CurveName : FSmartName) :
  ErrorResult_empty (is_valid acl (CompressedCurveByteStream AnimSeq) false)
  = true ->
  (get_num_tracks acl (CompressedCurveByteStream AnimSeq)
   <= length (CompressedCurveNames AnimSeq))%nat ->
  (j < get_num_tracks acl (CompressedCurveByteStream AnimSeq))%nat ->
  CompressedCurveNames AnimSeq !! j = Some CurveName ->
  UID CurveName = CurveUID ->
  (forall (k : nat) (Other : FSmartName),
     (j < k)%nat ->
     (k < get_num_tracks acl (CompressedCurveByteStream AnimSeq))%nat ->
     CompressedCurveNames AnimSeq !! k = Some Other -> UID Other <> CurveUID) ->
  IsEnabled Curves CurveUID = true ->
  exists Curves',
    fst (run (DecompressCurves acl AnimSeq Curves CurrentTime))
    = Returned Curves' /\
    Curves' !! CurveUID
    = Some {| Value := sample acl (CompressedCurveByteStream AnimSeq)
                         CurrentTime SampleRoundingPolicy_None j;
              bValid := true |}.
Proof.
  intros Hvalid Hnum Hj Hlook Huid Hlast Hen.
  destruct (DecompressCurves_returns_with acl AnimSeq Curves CurrentTime
              (fun i C =>
                 IsEnabled C CurveUID = true /\
                 ((j < i)%nat ->
                  C !! CurveUID
                  = Some {| Value := sample acl (CompressedCurveByteStream AnimSeq)
                                       CurrentTime SampleRoundingPolicy_None j;
                            bValid := true |})))
    as (Curves' & Hrun & _ & Hvalue); try assumption.
  - intros Hnil. rewrite Hnil in Hlook. discriminate Hlook.
  - split; [exact Hen|lia].
  - intros i Name C Hi Hname HC.
    exact (last_track_step CurveUID j _ _
             (sample acl (CompressedCurveByteStream AnimSeq) CurrentTime
                SampleRoundingPolicy_None)
             CurveName i Name C Hlook Huid Hlast Hi Hname HC).
  - exists Curves'. split; [exact Hrun|]. apply Hvalue, Hj.
Qed.

Lemma DecompressCurves_last_track_witness :
  exists Curves',
    fst (run (DecompressCurves MoreExamples.acl_three MoreExamples.blob_twice
                BufferExample.buffer F32.zero)) = Returned Curves' /\
    Curves' !! 7%N = Some {| Value := F32.of_int 2; bValid := true |}.
Proof.
  apply (DecompressCurves_last_track MoreExamples.acl_three
           MoreExamples.blob_twice BufferExample.buffer F32.zero 7%N 2
           {| DisplayName := "Grin"; UID := 7%N |}).
  - reflexivity.
  - simpl. lia.
  - simpl. lia.
  - reflexivity.
  - reflexivity.
  - simpl. intros k Other H1 H2. lia.
  - reflexivity.
Defined.

(** X10. A run of [DecompressCurves] that returns neither enables nor
    disables an identity and neither adds an identity to the buffer nor
    removes one; an identity that no track of the blob carries keeps its
    entry, also when it is listed beyond the tracks of the blob. *)
Theorem DecompressCurves_keeps_identities (acl : acl_library)
    (AnimSeq : FCompressedAnimSequence) (Curves : gmap UID_Type FCurveElement)
    (CurrentTime : float) :
  CompressedCurveNames AnimSeq = [] \/
  (ErrorResult_empty (is_valid acl (CompressedCurveByteStream AnimSeq) false)
   = true /\
   (get_num_tracks acl (CompressedCurveByteStream AnimSeq)
    <= length (CompressedCurveNames AnimSeq))%nat) ->
  exists Curves',
    fst (run (DecompressCurves acl AnimSeq Curves CurrentTime))
    = Returned Curves' /\
    forall uid,
      IsEnabled Curves' uid = IsEnabled Curves uid /\
      (is_Some (Curves' !! uid) <-> is_Some (Curves !! uid)) /\
      ((forall (k : nat) (Other : FSmartName),
          (k < get_num_tracks acl (CompressedCurveByteStream AnimSeq))%nat ->
          CompressedCurveNames AnimSeq !! k = Some Other -> UID Other <> uid) ->
       Curves' !! uid = Curves !! uid).
Proof.
  intros Hcase.
  assert (Hnames : CompressedCurveNames AnimSeq = [] \/
                   CompressedCurveNames AnimSeq <> []).
  { destruct (CompressedCurveNames AnimSeq); [left; reflexivity|right].
    discriminate. }
  destruct Hnames as [Hnil|Hne].
  - exists Curves. split.
    + unfold run, DecompressCurves. rewrite Hnil. reflexivity.
    + intros uid. split; [reflexivity|]. split; [reflexivity|]. reflexivity.
  - destruct Hcase as [Hnil|[Hvalid Hnum]]; [contradiction|].
    destruct (DecompressCurves_returns_with acl AnimSeq Curves CurrentTime
                (fun i C =>
                   forall uid,
                     IsEnabled C uid = IsEnabled Curves uid /\
                     (is_Some (C !! uid) <-> is_Some (Curves !! uid)) /\
                     ((forall (k : nat) (Other : FSmartName),
                         (k < i)%nat ->
                         CompressedCurveNames AnimSeq !! k = Some Other ->
                         UID Other <> uid) ->
                      C !! uid = Curves !! uid)))
      as (Curves' & Hrun & HP); try assumption.
    + intros uid. split; [reflexivity|]. split; [reflexivity|]. reflexivity.
    + intros i Name C Hi Hname HC uid.
      destruct (HC uid) as (Hen & Hdom & Hkeep).
      destruct (IsEnabled C (UID Name)) eqn:HenName.
      * split; [rewrite IsEnabled_Set_ by exact HenName; exact Hen|]. split.
        -- rewrite <- Hdom. unfold Set_. unfold IsEnabled in HenName.
           destruct (C !! UID Name) as [Element|] eqn:HName;
             [|discriminate HenName].
           destruct (decide (UID Name = uid)) as [<-|Hneq].
           ++ rewrite lookup_insert_eq, HName. split; eauto.
           ++ rewrite lookup_insert_ne by exact Hneq. reflexivity.
        -- intros Hnone. rewrite lookup_Set__ne.
           ++ apply Hkeep. intros k Other Hk. apply Hnone. lia.
           ++ apply (Hnone i Name); [lia|exact Hname].
      * split; [exact Hen|]. split; [exact Hdom|].
        intros Hnone. apply Hkeep. intros k Other Hk. apply Hnone. lia.
    + exists Curves'. split; [exact Hrun|exact HP].
Qed.

Lemma DecompressCurves_keeps_identities_witness :
  exists Curves',
    fst (run (DecompressCurves MoreExamples.acl_three MoreExamples.blob_twice
                BufferExample.buffer F32.zero)) = Returned Curves' /\
    IsEnabled Curves' 9%N = false /\
    Curves' !! 5%N = None.
Proof.
  destruct (DecompressCurves_keeps_identities MoreExamples.acl_three
              MoreExamples.blob_twice BufferExample.buffer F32.zero)
    as (Curves' & Hrun & Hall).
  - right. split; [reflexivity|]. simpl. lia.
  - exists Curves'. split; [exact Hrun|].
    destruct (Hall 9%N) as (Hen & _ & _). destruct (Hall 5%N) as (_ & _ & Hkeep).
    split; [rewrite Hen; reflexivity|].
    transitivity (BufferExample.buffer !! 5%N); [apply Hkeep|reflexivity].
    intros k Other Hk Hlook.
    destruct k as [|[|[|k]]]; simpl in Hlook; try discriminate Hlook;
      injection Hlook as <-; discriminate.
Defined.

(** ** More about single-curve decompression *)

Lemma DecompressCurve_scan_spec (CompressedCurveNames : list FSmartName)
    (CurveIndex : Z) (CurveUID : UID_Type) :
  (DecompressCurve_scan CompressedCurveNames CurveIndex CurveUID = -1 /\
   CurveUID ∉ (UID <$> CompressedCurveNames)) \/
  (exists (i : nat) (CurveName : FSmartName),
     DecompressCurve_scan CompressedCurveNames CurveIndex CurveUID
     = CurveIndex + Z.of_nat i /\
     CompressedCurveNames !! i = Some CurveName /\
     UID CurveName = CurveUID /\
     forall (j : nat) (Other : FSmartName),
       (j < i)%nat -> CompressedCurveNames !! j = Some Other ->
       UID Other <> CurveUID).
Proof.
  revert CurveIndex.
  induction CompressedCurveNames as [|Head rest IH]; intros CurveIndex.
  - left. split; [reflexivity|]. apply not_elem_of_nil.
  - simpl. destruct (N.eqb_spec (UID Head) CurveUID) as [Heq|Hne].
    + right. exists O, Head. split; [lia|]. split; [reflexivity|].
      split; [exact Heq|]. intros j Other Hj. lia.
    + destruct (IH (CurveIndex + 1)) as [[Hscan Hnot]|(i & Name & Hscan & Hl & Hu & Hf)].
      * left. split; [exact Hscan|]. try rewrite fmap_cons.
        apply not_elem_of_cons. split; [congruence|exact Hnot].
      * right. exists (Datatypes.S i), Name. split; [lia|].
        split; [exact Hl|]. split; [exact Hu|].
        intros j Other Hj Hother. destruct j as [|j].
        -- simpl in Hother. injection Hother as <-. exact Hne.
        -- apply (Hf j Other); [lia|exact Hother].
Qed.

Lemma DecompressCurve_run_valid (acl : acl_library)
    (AnimSeq : FCompressedAnimSequence) (CurveUID : UID_Type)
    (CurrentTime : float) :
  CompressedCurveNames AnimSeq <> [] ->
  ErrorResult_empty (is_valid acl (CompressedCurveByteStream AnimSeq) false)
  = true ->
  run (DecompressCurve acl AnimSeq CurveUID CurrentTime)
  = let TrackIndex :=
      DecompressCurve_scan (CompressedCurveNames AnimSeq) 0 CurveUID in
    let sought :=
      [call_is_valid false; call_initialize;
       call_seek CurrentTime SampleRoundingPolicy_None] in
    if TrackIndex <? 0 then (Returned F32.zero, sought)
    else (Returned (sample acl (CompressedCurveByteStream AnimSeq) CurrentTime
                      SampleRoundingPolicy_None (Z.to_nat TrackIndex)),
          sought ++ [call_decompress_track (Z.to_nat TrackIndex)]).
Proof.
  intros Hne Hvalid. unfold run, DecompressCurve.
  destruct (CompressedCurveNames AnimSeq) as [|Head rest] eqn:HNames;
    [congruence|].
  change ((length (Head :: rest) =? 0)%nat) with false. cbv iota.
  unfold mbind, exec_bind, emit, check, initialize, seek. simpl.
  rewrite Hvalid. simpl.
  destruct (_ <? 0); reflexivity.
Qed.

(** X11. With a non-empty identity list and a blob that passes the check,
    [DecompressCurve] validates, initialises the context and seeks once, at
    the query time and without rounding, before it looks the identity up.
    It then reads at most one track, whose index lies within the identity
    list and carries the requested identity; for an identity that is not
    listed it reads nothing and returns 0.0. *)
Theorem DecompressCurve_history (acl : acl_library)
    (AnimSeq : FCompressedAnimSequence) (CurveUID : UID_Type)
    (CurrentTime : float) :
  CompressedCurveNames AnimSeq <> [] ->
  ErrorResult_empty (is_valid acl (CompressedCurveByteStream AnimSeq) false)
  = true ->
  exists (value : float) (reads : list call),
    run (DecompressCurve acl AnimSeq CurveUID CurrentTime)
    = (Returned value,
       [call_is_valid false; call_initialize;
        call_seek CurrentTime SampleRoundingPolicy_None] ++ reads) /\
    (((CurveUID ∉ (UID <$> CompressedCurveNames AnimSeq)) /\
      reads = [] /\ value = F32.zero) \/
     (exists (i : nat) (CurveName : FSmartName),
        CompressedCurveNames AnimSeq !! i = Some CurveName /\
        UID CurveName = CurveUID /\
        reads = [call_decompress_track i] /\
        value = sample acl (CompressedCurveByteStream AnimSeq) CurrentTime
                  SampleRoundingPolicy_None i)).
Proof.
  intros Hne Hvalid. rewrite DecompressCurve_run_valid by assumption.
  destruct (DecompressCurve_scan_spec (CompressedCurveNames AnimSeq) 0 CurveUID)
    as [[Hscan Hnot]|(i & Name & Hscan & Hlook & Huid & _)]; rewrite Hscan.
  - exists F32.zero, []. split; [reflexivity|]. left. auto.
  - rewrite Z.add_0_l. cbv zeta.
    destruct (Z.ltb_spec (Z.of_nat i) 0) as [Hneg|_]; [lia|].
    rewrite Nat2Z.id. eexists _, _. split; [reflexivity|].
    right. exists i, Name. auto.
Qed.

Lemma DecompressCurve_history_witness :
  exists (value : float) (reads : list call),
    run (DecompressCurve MoreExamples.acl_three MoreExamples.blob_twice 5%N
           F32.one)
    = (Returned value,
       [call_is_valid false; call_initialize;
        call_seek F32.one SampleRoundingPolicy_None] ++ reads).
Proof.
  destruct (DecompressCurve_history MoreExamples.acl_three
              MoreExamples.blob_twice 5%N F32.one)
    as (value & reads & Hrun & _).
  - discriminate.
  - reflexivity.
  - exists value, reads. exact Hrun.
Defined.

(** X12. For an enabled identity that is listed once, at the index of a
    track of the blob, the two entry points agree: the value that
    [DecompressCurves] leaves in the buffer is the value that
    [DecompressCurve] returns. *)
Theorem Decompress_entry_points_agree (acl : acl_library)
    (AnimSeq : FCompressedAnimSequence) (Curves : gmap UID_Type FCurveElement)
    (CurrentTime : float) (CurveUID : UID_Type) (i : nat)
    (CurveName : FSmartName) :
  ErrorResult_empty (is_valid acl (CompressedCurveByteStream AnimSeq) false)
  = true ->
  (get_num_tracks acl (CompressedCurveByteStream AnimSeq)
   <= length (CompressedCurveNames AnimSeq))%nat ->
  (i < get_num_tracks acl (CompressedCurveByteStream AnimSeq))%nat ->
  CompressedCurveNames AnimSeq !! i = Some CurveName ->
  UID CurveName = CurveUID ->
  (forall (k : nat) (Other : FSmartName),
     k <> i -> CompressedCurveNames AnimSeq !! k = Some Other ->
     UID Other <> CurveUID) ->
  IsEnabled Curves CurveUID = true ->
  exists (value : float) (Curves' : gmap UID_Type FCurveElement),
    fst (run (DecompressCurve acl AnimSeq CurveUID CurrentTime))
    = Returned value /\
    fst (run (DecompressCurves acl AnimSeq Curves CurrentTime))
    = Returned Curves' /\
    Curves' !! CurveUID = Some {| Value := value; bValid := true |}.
Proof.
  intros Hvalid Hnum Hi Hlook Huid Hunique Hen.
  assert (Hne : CompressedCurveNames AnimSeq <> []).
  { intros Hnil. rewrite Hnil in Hlook. discriminate Hlook. }
  exists (sample acl (CompressedCurveByteStream AnimSeq) CurrentTime
            SampleRoundingPolicy_None i).
  destruct (DecompressCurves_returns_with acl AnimSeq Curves CurrentTime
              (fun k C =>
                 IsEnabled C CurveUID = true /\
                 ((i < k)%nat ->
                  C !! CurveUID
                  = Some {| Value := sample acl (CompressedCurveByteStream AnimSeq)
                                       CurrentTime SampleRoundingPolicy_None i;
                            bValid := true |})))
    as (Curves' & Hrun & _ & Hvalue); try assumption.
  - split; [exact Hen|lia].
  - intros k Name C Hk Hname HC.
    refine (last_track_step CurveUID i _ _
              (sample acl (CompressedCurveByteStream AnimSeq) CurrentTime
                 SampleRoundingPolicy_None)
              CurveName k Name C Hlook Huid _ Hk Hname HC).
    intros k' Other Hlt _. apply Hunique. lia.
  - exists Curves'. split; [|split; [exact Hrun|apply Hvalue, Hi]].
    rewrite DecompressCurve_run_valid by assumption.
    rewrite (DecompressCurve_scan_first _ 0 CurveUID i CurveName Hlook Huid).
    + rewrite Z.add_0_l. cbv zeta.
      destruct (Z.ltb_spec (Z.of_nat i) 0) as [Hneg|_]; [lia|].
      rewrite Nat2Z.id. reflexivity.
    + intros k Other Hk. apply Hunique. lia.
Qed.

Lemma Decompress_entry_points_agree_witness :
  exists (value : float) (Curves' : gmap UID_Type FCurveElement),
    fst (run (DecompressCurve Examples.acl_accepting BufferExample.blob 7%N
                F32.one)) = Returned value /\
    fst (run (DecompressCurves Examples.acl_accepting BufferExample.blob
                BufferExample.buffer F32.one)) = Returned Curves' /\
    Curves' !! 7%N = Some {| Value := value; bValid := true |}.
Proof.
  apply (Decompress_entry_points_agree Examples.acl_accepting
           BufferExample.blob BufferExample.buffer F32.one 7%N 0
           {| DisplayName := "Smile"; UID := 7%N |}).
  - reflexivity.
  - simpl. lia.
  - simpl. lia.
  - reflexivity.
  - reflexivity.
  - intros k Other Hk Hlook.
    destruct k as [|[|k]]; [congruence| |discriminate Hlook].
    simpl in Hlook. injection Hlook as <-. discriminate.
  - reflexivity.
Defined.



(** ** The derived-data cache key *)

Lemma PopulateDDCKey_written
    (Super_PopulateDDCKey : UAnimCurveCompressionCodec_ACL -> FArchive -> FArchive)
    (GetImportedModel : USkeletalMesh -> option FSkeletalMeshModel)
    (get_algorithm_version : Z) (this : UAnimCurveCompressionCodec_ACL)
    (Ar : FArchive) :
  PopulateDDCKey Super_PopulateDDCKey GetImportedModel get_algorithm_version
    this Ar
  = Super_PopulateDDCKey this Ar
    ++ [Ar_float (CurvePrecision this);
        Ar_float (MorphTargetPositionPrecision this)]
    ++ match key_guid GetImportedModel this with
       | Some Guid => [Ar_FGuid Guid]
       | None => []
       end
    ++ [Ar_uint32 0; Ar_uint16 get_algorithm_version].
Proof.
  unfold PopulateDDCKey, key_guid.
  destruct (MorphTargetSource this) as [Mesh|];
    [destruct (GetImportedModel Mesh) as [MeshModel|]|];
    rewrite <- ?app_assoc; reflexivity.
Qed.

(** X1. Two codecs whose base class writes the same key, compared under one
    algorithm version, have the same derived-data cache key exactly when
    they have the same curve precision, the same morph target precision and
    the same mesh identifier in the key; a morph target source without an
    imported model counts as no source. *)
Theorem PopulateDDCKey_same_key
    (Super_PopulateDDCKey : UAnimCurveCompressionCodec_ACL -> FArchive -> FArchive)
    (GetImportedModel : USkeletalMesh -> option FSkeletalMeshModel)
    (get_algorithm_version : Z) (this other : UAnimCurveCompressionCodec_ACL)
    (Ar : FArchive) :
  Super_PopulateDDCKey this Ar = Super_PopulateDDCKey other Ar ->
  PopulateDDCKey Super_PopulateDDCKey GetImportedModel get_algorithm_version
    this Ar
  = PopulateDDCKey Super_PopulateDDCKey GetImportedModel get_algorithm_version
      other Ar
  <->
  CurvePrecision this = CurvePrecision other /\
  MorphTargetPositionPrecision this = MorphTargetPositionPrecision other /\
  key_guid GetImportedModel this = key_guid GetImportedModel other.
Proof.
  intros Hsuper. rewrite !PopulateDDCKey_written, Hsuper. split.
  - intros Hkey. apply app_inv_head in Hkey. simpl in Hkey.
    injection Hkey as Hc Hm Hrest. split; [exact Hc|]. split; [exact Hm|].
    destruct (key_guid GetImportedModel this) as [g|],
      (key_guid GetImportedModel other) as [g'|]; simpl in Hrest;
      try discriminate Hrest; [|reflexivity].
    injection Hrest as ->. reflexivity.
  - intros (-> & -> & ->). reflexivity.
Qed.

Lemma PopulateDDCKey_same_key_witness :
  PopulateDDCKey (fun _ Ar => Ar) (fun _ => None) 7
    Examples.codec []
  = PopulateDDCKey (fun _ Ar => Ar) (fun _ => None) 7
      UAnimCurveCompressionCodec_ACL_new [].
Proof.
  apply (PopulateDDCKey_same_key (fun _ Ar => Ar) (fun _ => None) 7
           Examples.codec UAnimCurveCompressionCodec_ACL_new []).
  - reflexivity.
  - repeat split; reflexivity.
Defined.

(** ** The conversions of ACLImpl.h *)

(** X14. A vector, a quaternion and a transform of the engine that are
    converted to ACL's types and back are unchanged, with any library whose
    accessors read back what its constructors stored. *)
Theorem Casts_round_trip (M : acl_math) :
  accessors_read_back M ->
  (forall Input : FVector,
     VectorCast_FVector M (VectorCast_Vector4_32 M Input) = Input) /\
  (forall Input : FQuat,
     QuatCast_FQuat M (QuatCast_Quat_32 M Input) = Input) /\
  (forall Input : FTransform,
     TransformCast_FTransform M (TransformCast_Transform_32 M Input) = Input).
Proof.
  intros [Hvector Hquat].
  assert (HV : forall Input : FVector,
            VectorCast_FVector M (VectorCast_Vector4_32 M Input) = Input).
  { intros [x y z]. unfold VectorCast_FVector, VectorCast_Vector4_32. simpl.
    destruct (Hvector x y z) as (-> & -> & ->). reflexivity. }
  assert (HQ : forall Input : FQuat,
            QuatCast_FQuat M (QuatCast_Quat_32 M Input) = Input).
  { intros [x y z w]. unfold QuatCast_FQuat, QuatCast_Quat_32. simpl.
    destruct (Hquat x y z w) as (-> & -> & -> & ->). reflexivity. }
  split; [exact HV|]. split; [exact HQ|].
  intros [R T S]. unfold TransformCast_FTransform, TransformCast_Transform_32.
  simpl. rewrite HQ, !HV. reflexivity.
Qed.

Lemma Casts_round_trip_witness :
  TransformCast_FTransform MoreExamples.four_floats
    (TransformCast_Transform_32 MoreExamples.four_floats MoreExamples.transform)
  = MoreExamples.transform.
Proof.
  refine (proj2 (proj2 (Casts_round_trip MoreExamples.four_floats _)) _).
  split; intros; repeat split; reflexivity.
Defined.

(** ** The sample rate is positive *)

Section SampleRateFacts.

Import Rounding.
Local Open Scope R_scope.

Lemma Pos_iter_xO (m d : positive) :
  Z.pos (Pos.iter xO m d) = (Z.pos m * 2 ^ Z.pos d)%Z.
Proof.
  apply (Pos.iter_ind positive xO m
           (fun d a => Z.pos a = (Z.pos m * 2 ^ Z.pos d)%Z)).
  - simpl. lia.
  - intros p a IH. rewrite Pos2Z.inj_succ, Z.pow_succ_r by lia.
    rewrite Pos2Z.inj_xO, IH. lia.
Qed.

(** The conversion of a positive integer is the rounding of its value. *)
Lemma of_int_finish (z : Z) :
  (0 < z)%Z ->
  exists E m l,
    represents m E l (IZR z) /\ scale_ok (IZR z) E /\
    F32.of_int z = finish E (round_nearest_even m l).
Proof.
  intros Hz. destruct z as [|p|p]; try lia.
  unfold F32.of_int, binary_normalize, binary_round.
  change F32.prec with 24%Z. change F32.emax with 128%Z.
  rewrite fexp_binary32.
  pose proof (digits2_pos_bounds p) as Hd.
  set (d := Z.pos (digits2_pos p)) in *.
  assert (Hd1 : (1 <= d)%Z) by (unfold d; lia).
  assert (Halign : exists mz ez,
            shl_align p 0 (Z.max (d + 0 - 24) (-149)) = (mz, ez) /\
            F2R (Z.pos mz) ez = IZR (Z.pos p) /\
            (8388608 <= Z.pos mz)%Z).
  { unfold shl_align.
    destruct (Z.max (d + 0 - 24) (-149) - 0)%Z as [|k|k] eqn:Hk.
    - exists p, 0%Z. split; [reflexivity|]. split; [unfold F2R, bpow; simpl; lra|].
      assert (2 ^ 23 <= 2 ^ (d - 1))%Z by (apply Z.pow_le_mono_r; lia).
      change (2 ^ 23)%Z with 8388608%Z in H. lia.
    - exists p, 0%Z. split; [reflexivity|]. split; [unfold F2R, bpow; simpl; lra|].
      assert (2 ^ 23 <= 2 ^ (d - 1))%Z by (apply Z.pow_le_mono_r; lia).
      change (2 ^ 23)%Z with 8388608%Z in H. lia.
    - exists (Pos.iter xO p k), (Z.max (d + 0 - 24) (-149)).
      split; [reflexivity|].
      assert (Hshift : (Z.pos k = 24 - d)%Z) by lia.
      rewrite Pos_iter_xO. split.
      + unfold F2R. rewrite mult_IZR, <- (bpow_IZR (Z.pos k)) by lia.
        rewrite Rmult_assoc, <- bpow_add.
        replace (Z.pos k + Z.max (d + 0 - 24) (-149))%Z with 0%Z by lia.
        unfold bpow. simpl. lra.
      + rewrite Hshift.
        assert (2 ^ 23 = 2 ^ (d - 1) * 2 ^ (24 - d))%Z.
        { rewrite <- Z.pow_add_r by lia. f_equal. lia. }
        assert (0 < 2 ^ (24 - d))%Z by (apply Z.pow_pos_nonneg; lia).
        change (2 ^ 23)%Z with 8388608%Z in H. nia. }
  destruct Halign as (mz & ez & -> & Hvalue & Hbig).
  apply binary_round_aux_finish.
  - apply IZR_lt. lia.
  - lia.
  - simpl. symmetry. exact Hvalue.
  - right. exact Hbig.
Qed.

(** A positive 32-bit integer converts to a positive float that is at
    least 1. *)
Lemma of_int_at_least_one (z : Z) :
  (1 <= z < 2 ^ 31)%Z ->
  exists (m : positive) (e : Z),
    F32.of_int z = S754_finite false m e /\ 1 <= F2R (Z.pos m) e.
Proof.
  intros Hz.
  destruct (of_int_finish z ltac:(lia)) as (E & m1 & l1 & Hrep & Hscale & ->).
  assert (Hv : 1 <= IZR z < bpow 31).
  { rewrite (bpow_IZR 31) by lia. split; [apply IZR_le|apply IZR_lt]; lia. }
  pose proof (scale_bounds _ _ _ _ Hrep Hscale ltac:(lra)) as (Ha & Hb & Hc).
  pose proof (round_nearest_even_bounds m1 l1) as Hr.
  assert (Hb0 : bpow 0 = 1) by reflexivity.
  assert (HE : (-24 < E < 8)%Z).
  { destruct Hscale as [[-> Hsub]|[HE [Hlow Hup]]].
    - pose proof (bpow_lt (-125) 0 ltac:(lia)) as H. lra.
    - split.
      + destruct (Z_lt_le_dec (-24) E) as [H|H]; [exact H|exfalso].
        pose proof (bpow_le (E + 24) 0 ltac:(lia)) as H'. lra.
      + destruct (Z_lt_le_dec E 8) as [H|H]; [exact H|exfalso].
        pose proof (bpow_le 31 (E + 23) ltac:(lia)). lra. }
  specialize (Hc ltac:(lia)).
  change (2 ^ 24)%Z with 16777216%Z in Hb.
  change (2 ^ 23)%Z with 8388608%Z in Hc.
  assert (Hone : forall k : Z, (0 <= k)%Z -> 1 <= bpow k).
  { intros k Hk. pose proof (bpow_le 0 k Hk) as H. lra. }
  unfold finish.
  destruct (round_nearest_even m1 l1) as [|m2|m2] eqn:Hm2; try lia.
  destruct (Z.ltb_spec (Z.pos m2) 16777216) as [Hlt|Hge].
  - destruct (Z.leb_spec E 104) as [_|HE']; [|lia].
    exists m2, E. split; [reflexivity|].
    pose proof (F2R_le 8388608 (Z.pos m2) E ltac:(lia)) as Hle.
    change 8388608%Z with (2 ^ 23)%Z in Hle at 1.
    rewrite F2R_bpow in Hle by lia.
    pose proof (Hone (23 + E)%Z ltac:(lia)). lra.
  - destruct (Z.leb_spec (E + 1) 104) as [_|HE']; [|lia].
    exists 8388608%positive, (E + 1)%Z. split; [reflexivity|].
    change (Z.pos 8388608) with (2 ^ 23)%Z.
    rewrite F2R_bpow by lia. apply Hone. lia.
Qed.

(** Dividing a float that is at least 1 by a positive binary32 number never
    gives zero. *)
Lemma SFdiv_positive (mx : positive) (ex : Z) (my : positive) (ey : Z) :
  1 <= F2R (Z.pos mx) ex ->
  valid_binary 24 128 (S754_finite false my ey) = true ->
  SFltb (S754_zero false)
    (SFdiv 24 128 (S754_finite false mx ex) (S754_finite false my ey)) = true.
Proof.
  intros HX Hvalid.
  assert (HY : 0 < F2R (Z.pos my) ey < bpow 128).
  { split; [apply F2R_pos|].
    revert Hvalid.
    unfold valid_binary, SpecFloat.bounded, SpecFloat.canonical_mantissa.
    rewrite fexp_binary32. intros Hvalid.
    apply andb_true_iff in Hvalid as [Hcanon Hbound].
    apply Z.eqb_eq in Hcanon. apply Z.leb_le in Hbound.
    pose proof (digits2_pos_bounds my) as Hd.
    set (d := Z.pos (digits2_pos my)) in *.
    assert (Hm : (Z.pos my < 2 ^ 24)%Z).
    { assert (2 ^ d <= 2 ^ 24)%Z by (apply Z.pow_le_mono_r; lia). lia. }
    pose proof (F2R_lt _ _ ey Hm) as Hlt. rewrite F2R_bpow in Hlt by lia.
    pose proof (bpow_le (24 + ey) 128 ltac:(lia)). lra. }
  assert (Hv : bpow (-128) < F2R (Z.pos mx) ex / F2R (Z.pos my) ey).
  { pose proof (bpow_gt_0 (-128)) as Hpos.
    assert (Hunit : bpow (-128) * bpow 128 = 1).
    { rewrite <- bpow_add. reflexivity. }
    set (q := F2R (Z.pos mx) ex / F2R (Z.pos my) ey).
    assert (Hq : q * F2R (Z.pos my) ey = F2R (Z.pos mx) ex)
      by (unfold q; field; lra).
    nra. }
  destruct (SFdiv_ranked mx ex my ey) as (E & m & l & Hrep & Hscale & _ & Hk).
  assert (Hrank : (0 < rank E (round_nearest_even m l))%Z).
  { pose proof (bpow_gt_0 (-128)) as Hpos.
    pose proof (scale_bounds _ _ _ _ Hrep Hscale ltac:(lra)) as (Ha & Hb & Hc).
    pose proof (round_nearest_even_bounds m l) as Hr.
    unfold rank. destruct (Z.eq_dec E (-149)) as [->|HE]; [|lia].
    apply represents_bounds in Hrep.
    assert (Hm : F2R (2 ^ 21) (-149) < F2R (m + 1) (-149)).
    { rewrite F2R_bpow by lia. change (21 + -149)%Z with (-128)%Z. lra. }
    apply F2R_lt_reg in Hm. change (2 ^ 21)%Z with 2097152%Z in Hm. lia. }
  destruct (SFdiv 24 128 (S754_finite false mx ex) (S754_finite false my ey))
    as [[]|[]| |[] m' e']; simpl in Hk; try contradiction; try reflexivity.
  lia.
Qed.

End SampleRateFacts.

(** X15. For a sequence length that is a binary32 number, neither infinite
    nor NaN, the sample rate that [Compress] hands to ACL with every track is
    strictly positive: 30 for a static pose, and otherwise the quotient of a
    positive frame count by a positive length, which does not round to
    zero. *)
Theorem Compress_sample_rate_positive (Size : FVector -> float)
    (this : UAnimCurveCompressionCodec_ACL) (AnimSeq : FCompressibleAnimData)
    (CurveIndex : nat) (Track : track_float1f) :
  int32_range (NumFrames AnimSeq) ->
  F32.valid (SequenceLength AnimSeq) = true ->
  is_finite (SequenceLength AnimSeq) = true ->
  Compress_tracks Size this AnimSeq !! CurveIndex = Some Track ->
  F32.lt F32.zero (sample_rate Track) = true.
Proof.
  intros Hrange Hvalid Hfinite Htrack.
  apply Compress_tracks_lookup in Htrack as [_ ->].
  rewrite Compress_track_sample_rate.
  unfold SampleRate, bIsStaticPose.
  destruct (Z.leb_spec (NumFrames AnimSeq) 1) as [Hn|Hn]; [reflexivity|].
  simpl orb.
  destruct (SequenceLength AnimSeq) as [s|s| |s my ey];
    try discriminate Hfinite; [reflexivity|].
  destruct s; [reflexivity|].
  destruct (F32.lt (S754_finite false my ey) F32.lit_0_0001); [reflexivity|].
  unfold int32_sub, int32_wrap. unfold int32_range in Hrange.
  rewrite Z.mod_small by lia.
  destruct (of_int_at_least_one (NumFrames AnimSeq - 1 + 2 ^ 31 - 2 ^ 31))
    as (mx & ex & -> & Hone); [lia|].
  apply SFdiv_positive; assumption.
Qed.

Lemma Compress_sample_rate_positive_witness :
  F32.lt F32.zero
    (sample_rate (Compress_tracks Examples.FVector_Size Examples.codec
                    Examples.anim !!! 0%nat)) = true.
Proof.
  apply (Compress_sample_rate_positive Examples.FVector_Size Examples.codec
           Examples.anim 0).
  - unfold int32_range. simpl. lia.
  - reflexivity.
  - reflexivity.
  - vm_compute. reflexivity.
Defined.

(** X16. When the configured precisions are not negative (nor NaN) and the
    morph target precision is finite, the precision of every track that
    [Compress] builds is not negative and is not a NaN, whatever the deltas
    of the morph targets are. *)
Theorem Compress_precision_not_negative (Size : FVector -> float)
    (this : UAnimCurveCompressionCodec_ACL) (AnimSeq : FCompressibleAnimData)
    (CurveIndex : nat) (Track : track_float1f) :
  F32.le F32.zero (CurvePrecision this) = true ->
  F32.le F32.zero (MorphTargetPositionPrecision this) = true ->
  MorphTargetPositionPrecision this <> S754_infinity false ->
  Compress_tracks Size this AnimSeq !! CurveIndex = Some Track ->
  F32.le F32.zero (precision (desc Track)) = true /\
  is_nan (precision (desc Track)) = false.
Proof.
  intros Hcp Hmp Hinf Htrack.
  cut (F32.le F32.zero (precision (desc Track)) = true).
  { intros H. split; [exact H|]. apply (SFleb_not_nan _ _ H). }
  apply Compress_tracks_lookup in Htrack as [_ ->].
  rewrite Compress_track_desc; simpl. unfold Precision.
  destruct (F32.gt _ F32.zero) eqn:Hpos; [|exact Hcp].
  destruct (GetMorphTargetMaxPositionDeltas Size AnimSeq (MorphTargetSource this)
              !!! CurveIndex) as [[]|[]| |[] md ed]; try discriminate Hpos;
    destruct (MorphTargetPositionPrecision this) as [[]|[]| |[] mx ex];
    try discriminate Hmp; try congruence; try reflexivity.
  destruct (SFdiv_ranked mx ex md ed) as (E & m & l & _ & _ & Hr & Hk).
  apply (ranked_le (S754_zero false) _ 0 _ eq_refl Hk Hr).
Qed.

Lemma Compress_precision_not_negative_witness :
  F32.le F32.zero
    (precision (desc (Compress_tracks Examples.FVector_Size Examples.codec
                        Examples.anim !!! 0%nat))) = true.
Proof.
  refine (proj1 (Compress_precision_not_negative Examples.FVector_Size
                   Examples.codec Examples.anim 0 _ _ _ _ _)).
  - reflexivity.
  - reflexivity.
  - discriminate.
  - vm_compute. reflexivity.
Defined.

(** ** The sample times do not decrease *)

Section SampleTimeFacts.

Import Rounding.
Local Open Scope R_scope.

(** Among the positive binary32 numbers, a smaller rank is a smaller value. *)
Lemma ranked_value_le (m1 : positive) (e1 : Z) (m2 : positive) (e2 : Z)
    (r1 r2 : Z) :
  ranked (S754_finite false m1 e1) r1 ->
  ranked (S754_finite false m2 e2) r2 ->
  (r1 <= r2)%Z ->
  F2R (Z.pos m1) e1 <= F2R (Z.pos m2) e2.
Proof.
  simpl. unfold rank. intros (Ha1 & -> & Hb1 & Hc1) (Ha2 & -> & Hb2 & Hc2) Hle.
  destruct (Z.lt_trichotomy e1 e2) as [Hlt|[->|Hgt]].
  - specialize (Hc2 ltac:(lia)).
    pose proof (F2R_lt (Z.pos m1) (2 ^ 24) e1 ltac:(lia)) as H1.
    rewrite F2R_bpow in H1 by lia.
    pose proof (bpow_le (24 + e1) (23 + e2) ltac:(lia)) as H2.
    pose proof (F2R_le (2 ^ 23) (Z.pos m2) e2 ltac:(lia)) as H3.
    rewrite F2R_bpow in H3 by lia. lra.
  - apply F2R_le. lia.
  - exfalso. specialize (Hc1 ltac:(lia)). lia.
Qed.

(** The product of two positive binary32 numbers, and its rank. *)
Lemma SFmul_ranked (mx : positive) (ex : Z) (my : positive) (ey : Z)
    (rx ry : Z) :
  ranked (S754_finite false mx ex) rx ->
  ranked (S754_finite false my ey) ry ->
  exists E m l,
    represents m E l (F2R (Z.pos mx) ex * F2R (Z.pos my) ey) /\
    scale_ok (F2R (Z.pos mx) ex * F2R (Z.pos my) ey) E /\
    (0 <= rank E (round_nearest_even m l))%Z /\
    ranked (SFmul 24 128 (S754_finite false mx ex) (S754_finite false my ey))
      (rank E (round_nearest_even m l)).
Proof.
  simpl. intros (Ha1 & _ & Hb1 & Hc1) (Ha2 & _ & Hb2 & Hc2).
  pose proof (F2R_pos mx ex) as Hx. pose proof (F2R_pos my ey) as Hy.
  assert (Hv : 0 < F2R (Z.pos mx) ex * F2R (Z.pos my) ey) by nra.
  assert (Hrep : represents (Z.pos (mx * my)) (ex + ey) loc_Exact
                   (F2R (Z.pos mx) ex * F2R (Z.pos my) ey)).
  { simpl. unfold F2R. rewrite Pos2Z.inj_mul, mult_IZR, bpow_add. ring. }
  assert (Hbig : (ex + ey <= -149 \/ 8388608 <= Z.pos (mx * my))%Z).
  { rewrite Pos2Z.inj_mul.
    destruct (Z.eq_dec ex (-149)) as [->|Hex].
    - destruct (Z.eq_dec ey (-149)) as [->|Hey]; [left; lia|].
      right. specialize (Hc2 ltac:(lia)). nia.
    - right. specialize (Hc1 ltac:(lia)). nia. }
  unfold SFmul. simpl xorb.
  destruct (binary_round_aux_finish _ _ _ _ Hv (Pos2Z.is_nonneg _) Hrep Hbig)
    as (E & m1 & l1 & Hrep' & Hscale & ->).
  exists E, m1, l1. split; [exact Hrep'|]. split; [exact Hscale|].
  pose proof (scale_bounds _ _ _ _ Hrep' Hscale ltac:(lra)) as (Ha & Hb & Hc).
  pose proof (round_nearest_even_bounds m1 l1) as Hr.
  change (2 ^ 24)%Z with 16777216%Z in Hb.
  change (2 ^ 23)%Z with 8388608%Z in Hc.
  split; [unfold rank; lia|]. apply finish_ranked. lia.
Qed.

(** Multiplying by a positive number keeps the order, after rounding. *)
Lemma SFmul_monotone (m1 : positive) (e1 : Z) (m2 : positive) (e2 : Z)
    (my : positive) (ey : Z) (r1 r2 ry : Z) :
  ranked (S754_finite false m1 e1) r1 ->
  ranked (S754_finite false m2 e2) r2 ->
  ranked (S754_finite false my ey) ry ->
  (r1 <= r2)%Z ->
  SFleb (SFmul 24 128 (S754_finite false m1 e1) (S754_finite false my ey))
        (SFmul 24 128 (S754_finite false m2 e2) (S754_finite false my ey))
  = true.
Proof.
  intros H1 H2 Hy Hle.
  pose proof (ranked_value_le _ _ _ _ _ _ H1 H2 Hle) as Hvalue.
  destruct (SFmul_ranked _ _ _ _ _ _ H1 Hy)
    as (E1 & n1 & l1 & Hrep1 & Hscale1 & _ & Hk1).
  destruct (SFmul_ranked _ _ _ _ _ _ H2 Hy)
    as (E2 & n2 & l2 & Hrep2 & Hscale2 & _ & Hk2).
  apply (ranked_le _ _ _ _ Hk1 Hk2).
  pose proof (F2R_pos m1 e1). pose proof (F2R_pos my ey).
  apply (rank_monotone _ _ _ _ _ _ _ _ Hrep1 Hscale1 Hrep2 Hscale2); nra.
Qed.

(** The conversion of a positive 32-bit integer, with its rank. *)
Lemma of_int_ranked (z : Z) :
  (1 <= z < 2 ^ 31)%Z ->
  exists (m : positive) (e E m1 : Z) (l1 : location),
    F32.of_int z = S754_finite false m e /\
    represents m1 E l1 (IZR z) /\ scale_ok (IZR z) E /\
    ranked (S754_finite false m e) (rank E (round_nearest_even m1 l1)).
Proof.
  intros Hz.
  destruct (of_int_at_least_one z Hz) as (m & e & Heq & _).
  destruct (of_int_finish z ltac:(lia)) as (E & m1 & l1 & Hrep & Hscale & Hfin).
  exists m, e, E, m1, l1. split; [exact Heq|]. split; [exact Hrep|].
  split; [exact Hscale|]. rewrite <- Heq, Hfin.
  assert (Hv : 0 <= IZR z) by (apply IZR_le; lia).
  pose proof (scale_bounds _ _ _ _ Hrep Hscale Hv) as (Ha & Hb & Hc).
  pose proof (round_nearest_even_bounds m1 l1) as Hr.
  change (2 ^ 24)%Z with 16777216%Z in Hb.
  change (2 ^ 23)%Z with 8388608%Z in Hc.
  apply finish_ranked. lia.
Qed.

(** The inverse of the sample rate is zero, positive or infinite, and never
    negative or NaN, when the sequence length is not negative. *)
Lemma InvSampleRate_ranked (NumSamples : Z) (SequenceLength : float) :
  int32_range NumSamples ->
  F32.le F32.zero SequenceLength = true ->
  exists r : Z, ranked (InvSampleRate NumSamples SequenceLength) r.
Proof.
  intros Hrange Hle.
  assert (Hstatic : exists r : Z, ranked (F32.div F32.one F32.thirty) r).
  { eexists. vm_compute. repeat split; try reflexivity; discriminate. }
  assert (Hinv : forall (m : positive) (e : Z) (r : Z),
            ranked (S754_finite false m e) r ->
            exists r' : Z, ranked (F32.div F32.one (S754_finite false m e)) r').
  { intros m e r _.
    destruct (SFdiv_ranked 8388608 (-23) m e) as (E & n & l & _ & _ & _ & Hk).
    eexists. exact Hk. }
  unfold InvSampleRate, SampleRate, bIsStaticPose.
  destruct (Z.leb_spec NumSamples 1) as [Hn|Hn]; [exact Hstatic|].
  simpl orb. unfold int32_sub, int32_wrap. unfold int32_range in Hrange.
  rewrite Z.mod_small by lia.
  destruct (of_int_at_least_one (NumSamples - 1 + 2 ^ 31 - 2 ^ 31))
    as (mx & ex & -> & _); [lia|].
  destruct SequenceLength as [s|s| |s my ey]; try discriminate Hle.
  - destruct s; exact Hstatic.
  - destruct s; [discriminate Hle|].
    exists (rank 105 8388608). simpl. lia.
  - destruct s; [discriminate Hle|].
    destruct (F32.lt (S754_finite false my ey) F32.lit_0_0001);
      [exact Hstatic|].
    destruct (SFdiv_ranked mx ex my ey) as (E & n & l & _ & _ & _ & Hk).
    unfold F32.div at 2. change F32.prec with 24%Z. change F32.emax with 128%Z.
    destruct (SFdiv 24 128 (S754_finite false mx ex) (S754_finite false my ey))
      as [[]|[]| |[] mr er]; simpl in Hk; try contradiction.
    + exists (rank 105 8388608). simpl. lia.
    + exists 0%Z. reflexivity.
    + apply (Hinv mr er _ Hk).
Qed.

End SampleTimeFacts.

(** Clamping keeps the order. *)
Lemma FMath_Clamp_monotone (X X' Min Max : float) :
  F32.le Min Max = true ->
  F32.le X X' = true ->
  F32.le (FMath_Clamp X Min Max) (FMath_Clamp X' Min Max) = true.
Proof.
  intros Hle HX.
  destruct (SFleb_not_nan _ _ Hle) as [HMin HMax].
  destruct (SFleb_not_nan _ _ HX) as [HXn HXn'].
  unfold FMath_Clamp, F32.lt, F32.le in *.
  assert (Hge : forall a b : float,
            is_nan a = false -> is_nan b = false ->
            SFltb a b = false -> SFleb b a = true).
  { intros a b Ha Hb Hlt. destruct (SFleb b a) eqn:Hcmp; [reflexivity|].
    rewrite (SFleb_total _ _ Ha Hb Hcmp) in Hlt. discriminate Hlt. }
  destruct (SFltb X Min) eqn:H1; [|apply (Hge _ _ HXn HMin) in H1];
    (destruct (SFltb X Max) eqn:H2;
       [apply SFltb_SFleb in H2|apply (Hge _ _ HXn HMax) in H2]);
    (destruct (SFltb X' Min) eqn:H3;
       [apply SFltb_SFleb in H3|apply (Hge _ _ HXn' HMin) in H3]);
    (destruct (SFltb X' Max) eqn:H4;
       [apply SFltb_SFleb in H4|apply (Hge _ _ HXn' HMax) in H4]);
    eauto using SFleb_refl, SFleb_trans.
Qed.

(** An infinite or undefined product is clamped to the upper bound. *)
Lemma FMath_Clamp_overflow (X Max : float) :
  F32.le F32.zero Max = true ->
  X = S754_nan \/ X = S754_infinity false ->
  FMath_Clamp X F32.zero Max = Max.
Proof.
  intros Hle [->| ->]; [reflexivity|].
  destruct Max as [[]|[]| |[] m e]; try discriminate Hle; reflexivity.
Qed.

(** The time of a later sample is not smaller. *)
Lemma SampleTime_monotone (NumSamples : Z) (SequenceLength : float)
    (i j : nat) :
  int32_range NumSamples ->
  F32.le F32.zero SequenceLength = true ->
  (i <= j)%nat -> Z.of_nat j < 2 ^ 31 ->
  F32.le (SampleTime NumSamples SequenceLength i)
         (SampleTime NumSamples SequenceLength j) = true.
Proof.
  intros Hrange Hle Hij Hj. unfold SampleTime.
  destruct (InvSampleRate_ranked NumSamples SequenceLength Hrange Hle)
    as [ri Hri].
  destruct (SFleb_not_nan _ _ Hle) as [_ Hnan].
  assert (Hconv : forall k : nat, Z.of_nat k < 2 ^ 31 ->
            F32.of_int (Z.of_nat k) = S754_zero false /\ k = 0%nat \/
            (0 < k)%nat /\
            exists (m : positive) (e : Z),
              F32.of_int (Z.of_nat k) = S754_finite false m e).
  { intros k Hk. destruct k as [|k]; [left; split; reflexivity|right].
    split; [lia|].
    destruct (of_int_ranked (Z.of_nat (S k)) ltac:(lia))
      as (m & e & E & m1 & l1 & Heq & _).
    exists m, e. exact Heq. }
  destruct (InvSampleRate NumSamples SequenceLength)
    as [[]|[]| |[] mi ei]; simpl in Hri; try contradiction.
  - (* the inverse rate is zero *)
    assert (Hzero : forall k : nat, Z.of_nat k < 2 ^ 31 ->
              F32.mul (F32.of_int (Z.of_nat k)) (S754_zero false)
              = S754_zero false).
    { intros k Hk. destruct (Hconv k Hk) as [[-> _]|[_ (m & e & ->)]];
        reflexivity. }
    rewrite (Hzero i), (Hzero j) by lia.
    apply SFleb_refl. destruct (SFleb_not_nan _ _
      (proj1 (FMath_Clamp_range (S754_zero false) F32.zero SequenceLength Hle)))
      as [_ H]. exact H.
  - (* the inverse rate is infinite *)
    assert (Hover : forall k : nat, Z.of_nat k < 2 ^ 31 ->
              FMath_Clamp (F32.mul (F32.of_int (Z.of_nat k))
                             (S754_infinity false)) F32.zero SequenceLength
              = SequenceLength).
    { intros k Hk. apply FMath_Clamp_overflow; [exact Hle|].
      destruct (Hconv k Hk) as [[-> _]|[_ (m & e & ->)]];
        [left|right]; reflexivity. }
    rewrite (Hover i), (Hover j) by lia.
    apply SFleb_refl, Hnan.
  - (* the inverse rate is a positive number *)
    apply FMath_Clamp_monotone; [exact Hle|].
    destruct (Hconv j Hj) as [[_ ->]|[Hjpos _]].
    + replace i with 0%nat by lia. reflexivity.
    + destruct (of_int_ranked (Z.of_nat j) ltac:(lia))
        as (mj & ej & Ej & nj & lj & -> & Hrepj & Hscalej & Hrj).
      destruct i as [|i].
      * destruct (SFmul_ranked mj ej mi ei _ _ Hrj Hri)
          as (E & n & l & _ & _ & Hpos & Hk).
        change (F32.mul (F32.of_int (Z.of_nat 0)) (S754_finite false mi ei))
          with (S754_zero false).
        apply (ranked_le (S754_zero false) _ 0 _ eq_refl Hk Hpos).
      * destruct (of_int_ranked (Z.of_nat (S i)) ltac:(lia))
          as (mk & ek & Ek & nk & lk & -> & Hrepk & Hscalek & Hrk).
        apply (SFmul_monotone _ _ _ _ _ _ _ _ _ Hrk Hrj Hri).
        apply (rank_monotone _ _ _ _ _ _ _ _
                 Hrepk Hscalek Hrepj Hscalej).
        -- apply IZR_le. lia.
        -- apply IZR_le. lia.
Qed.

(** Every sample that the loop of [Compress] writes, by its index. *)
Lemma Compress_tracks_sample (Size : FVector -> float)
    (this : UAnimCurveCompressionCodec_ACL) (AnimSeq : FCompressibleAnimData)
    (CurveIndex : nat) (Track : track_float1f) (SampleIndex : nat) :
  int32_range (NumFrames AnimSeq) ->
  Compress_tracks Size this AnimSeq !! CurveIndex = Some Track ->
  (SampleIndex < Z.to_nat (NumFrames AnimSeq))%nat ->
  samples Track !! SampleIndex
  = Some (Eval (FloatCurve (FloatCurves AnimSeq !!! CurveIndex))
            (SampleTime (NumFrames AnimSeq) (SequenceLength AnimSeq)
               SampleIndex)).
Proof.
  intros Hrange Htrack Hindex.
  apply Compress_tracks_lookup in Htrack as [_ ->].
  rewrite Compress_track_samples.
  assert (Hreserve : Z.to_nat (uint32_of_int32 (NumFrames AnimSeq))
                     = Z.to_nat (NumFrames AnimSeq)).
  { unfold uint32_of_int32. unfold int32_range in Hrange.
    rewrite Z.mod_small; lia. }
  rewrite Hreserve.
  apply (for_range_lookup_in
           (fun SampleIndex =>
              Eval (FloatCurve (FloatCurves AnimSeq !!! CurveIndex))
                (SampleTime (NumFrames AnimSeq) (SequenceLength AnimSeq)
                   SampleIndex)));
    [lia|rewrite length_replicate; exact Hindex].
Qed.

(** X17. When the sequence length is not negative, the samples of a track
    follow the curve forwards in time: of two samples of a track, the later
    one is the value of the curve at a time that is not smaller, although
    each time is rounded twice (the product of the index and the inverse
    sample rate) and then clamped. *)
Theorem Compress_sample_times_ordered (Size : FVector -> float)
    (this : UAnimCurveCompressionCodec_ACL) (AnimSeq : FCompressibleAnimData)
    (CurveIndex : nat) (Track : track_float1f) (i j : nat) :
  int32_range (NumFrames AnimSeq) ->
  F32.le F32.zero (SequenceLength AnimSeq) = true ->
  Compress_tracks Size this AnimSeq !! CurveIndex = Some Track ->
  (i <= j < Z.to_nat (NumFrames AnimSeq))%nat ->
  exists ti tj : float,
    ti = SampleTime (NumFrames AnimSeq) (SequenceLength AnimSeq) i /\
    tj = SampleTime (NumFrames AnimSeq) (SequenceLength AnimSeq) j /\
    samples Track !! i
    = Some (Eval (FloatCurve (FloatCurves AnimSeq !!! CurveIndex)) ti) /\
    samples Track !! j
    = Some (Eval (FloatCurve (FloatCurves AnimSeq !!! CurveIndex)) tj) /\
    F32.le ti tj = true.
Proof.
  intros Hrange Hlen Htrack Hij.
  eexists _, _. split; [reflexivity|]. split; [reflexivity|].
  split; [|split].
  - apply (Compress_tracks_sample Size this AnimSeq CurveIndex Track i);
      [assumption|assumption|lia].
  - apply (Compress_tracks_sample Size this AnimSeq CurveIndex Track j);
      [assumption|assumption|lia].
  - apply SampleTime_monotone; [assumption|assumption|lia|].
    unfold int32_range in Hrange. lia.
Qed.

Lemma Compress_sample_times_ordered_witness :
  exists ti tj : float,
    ti = SampleTime (NumFrames Examples.anim)
           (SequenceLength Examples.anim) 1 /\
    tj = SampleTime (NumFrames Examples.anim)
           (SequenceLength Examples.anim) 3 /\
    samples (Compress_tracks Examples.FVector_Size Examples.codec
               Examples.anim !!! 0%nat) !! 1%nat
    = Some (Eval (FloatCurve (FloatCurves Examples.anim !!! 0%nat)) ti) /\
    samples (Compress_tracks Examples.FVector_Size Examples.codec
               Examples.anim !!! 0%nat) !! 3%nat
    = Some (Eval (FloatCurve (FloatCurves Examples.anim !!! 0%nat)) tj) /\
    F32.le ti tj = true.
Proof.
  apply (Compress_sample_times_ordered Examples.FVector_Size Examples.codec
           Examples.anim 0).
  - unfold int32_range. simpl. lia.
  - reflexivity.
  - vm_compute. reflexivity.
  - simpl. lia.
Defined.
